(** * douyin-extractor: the extraction and tagging pipeline of [app.py]

    A shallow embedding of the functions of [src/app.py]

      - [extract_value]              (app.py, lines 16-27)
      - [extract_track_url]          (app.py, lines 30-48)
      - [extract_and_log_data]       (app.py, lines 51-69)
      - [download_and_set_metadata]  (app.py, lines 79-142)

    together with the part of the Python runtime they rest on: [str.find],
    [str.rfind], slicing, [str.strip], [str.startswith], and the string
    scanner behind [json.loads].

    A Python [str] is a sequence of Unicode code points; it is modelled as a
    list of [N].  Indices are [Z], because the code computes with the value
    [-1] that [find] and [rfind] return on failure, and feeds it back into
    [find] and into a slice.  A [try ... except Exception] block is a
    handler over an explicit [outcome] type.  The calls to [logging] write
    to the log only and are left out. *)

From Stdlib Require Import ZArith NArith Lia Ascii String List Bool.
From stdpp Require Import base option list strings gmap.

Local Open Scope Z_scope.

(** ** Python strings *)

Module Py.

Definition char := N.
Definition str := list char.

(** Code points of the characters the program names. *)
Definition dquote : char := 34%N.
Definition backslash : char := 92%N.
Definition underscore : char := 95%N.
Definition colon : char := 58%N.
Definition comma : char := 44%N.

(** [lit s] is the Python string written [s], character by character. *)
Fixpoint lit (s : string) : str :=
  match s with
  | EmptyString => []
  | String a s' => N_of_ascii a :: lit s'
  end.

(** [litq s] reads [s] the way [app.py] writes its markers: a Python literal
    in single quotes whose body contains double quotes.  Every apostrophe of
    [s] stands for one double-quote character; all other characters stand
    for themselves. *)
Definition unquote (c : char) : char := if (c =? 39)%N then dquote else c.
Definition litq (s : string) : str := map unquote (lit s).

Definition len (s : str) : Z := Z.of_nat (length s).

(** [startswith s sub]: [sub] is a prefix of [s]. *)
Fixpoint startswith (s sub : str) {struct sub} : bool :=
  match sub, s with
  | [], _ => true
  | _ :: _, [] => false
  | a :: sub', b :: s' => (a =? b)%N && startswith s' sub'
  end.

(** Index normalisation of [find], [rfind] and slices: a negative index
    counts from the end and is clamped at 0; an index beyond the end is
    clamped at the length. *)
Definition norm_index (i n : Z) : Z :=
  if i <? 0 then Z.max 0 (i + n) else Z.min i n.

(** [s[a:b]] *)
Definition slice (s : str) (a b : Z) : str :=
  let a' := norm_index a (len s) in
  let b' := norm_index b (len s) in
  take (Z.to_nat (b' - a')) (drop (Z.to_nat a') s).

(** [s[a:]] *)
Definition slice_from (s : str) (a : Z) : str := slice s a (len s).

(** Lowest offset at which [sub] starts in the window [w], if any. *)
Fixpoint first_index (w sub : str) : option nat :=
  if startswith w sub then Some 0%nat
  else match w with
       | [] => None
       | _ :: w' => S <$> first_index w' sub
       end.

(** Highest such offset. *)
Fixpoint last_index (w sub : str) : option nat :=
  match w with
  | [] => if startswith w sub then Some 0%nat else None
  | _ :: w' =>
      match last_index w' sub with
      | Some k => Some (S k)
      | None => if startswith w sub then Some 0%nat else None
      end
  end.

(** The window [s[a:b]] that [find] and [rfind] search: [start] is
    normalised without the clamp at the length, so that a start beyond the
    end finds nothing, not even the empty string. *)
Definition window_start (s : str) (start : Z) : Z :=
  if start <? 0 then Z.max 0 (start + len s) else start.

Definition window (s : str) (a b : Z) : str :=
  take (Z.to_nat (b - a)) (drop (Z.to_nat a) s).

(** [s.find(sub, start, stop)]: the lowest index [i] with [start <= i],
    [i + len sub <= stop] and [s[i:i+len sub] = sub], after index
    normalisation; [-1] if there is none. *)
Definition find_in (s sub : str) (start stop : Z) : Z :=
  let a := window_start s start in
  let b := norm_index stop (len s) in
  if b - a <? len sub then -1
  else match first_index (window s a b) sub with
       | Some k => a + Z.of_nat k
       | None => -1
       end.

(** [s.find(sub, start)] and [s.find(sub)] *)
Definition find_from (s sub : str) (start : Z) : Z := find_in s sub start (len s).
Definition find (s sub : str) : Z := find_from s sub 0.

(** [s.rfind(sub, start, stop)]: the highest such index. *)
Definition rfind_in (s sub : str) (start stop : Z) : Z :=
  let a := window_start s start in
  let b := norm_index stop (len s) in
  if b - a <? len sub then -1
  else match last_index (window s a b) sub with
       | Some k => a + Z.of_nat k
       | None => -1
       end.

(** [s.strip()] removes the characters for which [str.isspace] holds from
    both ends; [s.strip(chars)] removes every leading and trailing character
    that occurs in [chars]. *)
Definition isspace (c : char) : bool :=
  ((9 <=? c) && (c <=? 13) || (28 <=? c) && (c <=? 32)
   || (c =? 133) || (c =? 160) || (c =? 5760)
   || (8192 <=? c) && (c <=? 8202)
   || (c =? 8232) || (c =? 8233) || (c =? 8239) || (c =? 8287)
   || (c =? 12288))%N.

Fixpoint lstrip_with (p : char -> bool) (s : str) : str :=
  match s with
  | [] => []
  | c :: s' => if p c then lstrip_with p s' else s
  end.

Definition rstrip_with (p : char -> bool) (s : str) : str :=
  reverse (lstrip_with p (reverse s)).

Definition strip_with (p : char -> bool) (s : str) : str :=
  rstrip_with p (lstrip_with p s).

Definition mem (c : char) (chars : str) : bool := existsb (N.eqb c) chars.

Definition strip (s : str) : str := strip_with isspace s.
Definition strip_chars (s chars : str) : str := strip_with (fun c => mem c chars) s.

(** [sub in s] *)
Definition contains (s sub : str) : bool := negb (find s sub =? -1).

End Py.

(** ** Exceptions *)

Inductive exc : Type :=
  | JSONDecodeError
  | KeyError (key : string)
  | RequestException
  | MutagenError
  | OSError
  | ValueError.

Inductive outcome (A : Type) : Type :=
  | Returns (a : A)
  | Raises (e : exc).
Arguments Returns {A} a.
Arguments Raises {A} e.

Definition obind {A B} (m : outcome A) (k : A -> outcome B) : outcome B :=
  match m with
  | Returns a => k a
  | Raises e => Raises e
  end.

(** [try: body  except Exception as e: handler] *)
Definition try_except {A} (body : outcome A) (handler : exc -> outcome A) : outcome A :=
  match body with
  | Returns a => Returns a
  | Raises e => handler e
  end.

#[global] Instance outcome_ret : MRet outcome := @Returns.
#[global] Instance outcome_bind : MBind outcome := fun A B k m => obind m k.

(** ** [json.loads] on a quoted string

    The program calls [json.loads] only on a document of the form
    [f'"{x}"'], which opens with a double quote: the decoder goes straight
    to its string scanner, and then accepts nothing but JSON white space up
    to the end of the document. *)

Module Json.
Import Py.

Definition hexval (c : char) : option N :=
  if ((48 <=? c) && (c <=? 57))%N then Some (c - 48)%N
  else if ((97 <=? c) && (c <=? 102))%N then Some (c - 87)%N
  else if ((65 <=? c) && (c <=? 70))%N then Some (c - 55)%N
  else None.

(** The four hexadecimal digits of a unicode escape (backslash, u, XXXX). *)
Definition hex4 (a b c d : char) : option N :=
  match hexval a, hexval b, hexval c, hexval d with
  | Some x, Some y, Some z, Some w => Some (((x * 16 + y) * 16 + z) * 16 + w)%N
  | _, _, _, _ => None
  end.

(** The one-character escapes: a backslash followed by a double quote, a
    backslash or a slash stands for that character; followed by one of
    b, f, n, r, t it stands for the control character of that name. *)
Definition simple_escape (e : char) : option char :=
  if (e =? 34)%N then Some 34%N
  else if (e =? 92)%N then Some 92%N
  else if (e =? 47)%N then Some 47%N
  else if (e =? 98)%N then Some 8%N
  else if (e =? 102)%N then Some 12%N
  else if (e =? 110)%N then Some 10%N
  else if (e =? 114)%N then Some 13%N
  else if (e =? 116)%N then Some 9%N
  else None.

Definition is_high_surrogate (u : N) : bool := ((55296 <=? u) && (u <=? 56319))%N.
Definition is_low_surrogate (u : N) : bool := ((56320 <=? u) && (u <=? 57343))%N.
Definition join_surrogates (hi lo : N) : N :=
  (65536 + ((hi - 55296) * 1024 + (lo - 56320)))%N.

Definition push (c : char) (r : outcome (str * str)) : outcome (str * str) :=
  match r with
  | Returns (d, rest) => Returns (c :: d, rest)
  | Raises e => Raises e
  end.

(** [scanstring w] scans the characters after an opening quote, in strict
    mode: it returns the decoded string and what follows the closing quote.
    It raises on a missing closing quote, a control character, an unknown
    escape and a malformed unicode escape.  A high surrogate followed by an
    escaped low surrogate is joined with it into one code point. *)
Fixpoint scanstring (w : str) : outcome (str * str) :=
  match w with
  | [] => Raises JSONDecodeError
  | c :: w1 =>
      if (c =? dquote)%N then Returns ([], w1)
      else if (c =? backslash)%N then
        match w1 with
        | [] => Raises JSONDecodeError
        | e :: w2 =>
            if (e =? 117)%N then
              match w2 with
              | h1 :: h2 :: h3 :: h4 :: w3 =>
                  match hex4 h1 h2 h3 h4 with
                  | None => Raises JSONDecodeError
                  | Some uni =>
                      if is_high_surrogate uni then
                        match w3 with
                        | b :: u :: l1 :: l2 :: l3 :: l4 :: w4 =>
                            if ((b =? backslash) && (u =? 117))%N then
                              match hex4 l1 l2 l3 l4 with
                              | None => Raises JSONDecodeError
                              | Some uni2 =>
                                  if is_low_surrogate uni2
                                  then push (join_surrogates uni uni2) (scanstring w4)
                                  else push uni (scanstring w3)
                              end
                            else push uni (scanstring w3)
                        | _ => push uni (scanstring w3)
                        end
                      else push uni (scanstring w3)
                  end
              | _ => Raises JSONDecodeError
              end
            else
              match simple_escape e with
              | Some c' => push c' (scanstring w2)
              | None => Raises JSONDecodeError
              end
        end
      else if (c <=? 31)%N then Raises JSONDecodeError
      else push c (scanstring w1)
  end.

Definition json_ws (c : char) : bool :=
  ((c =? 32) || (c =? 9) || (c =? 10) || (c =? 13))%N.

(** [json.loads(f'"{x}"')] *)
Definition loads_quoted (x : str) : outcome str :=
  match scanstring (x ++ [dquote]) with
  | Returns (d, rest) =>
      if forallb json_ws rest then Returns d else Raises JSONDecodeError
  | Raises e => Raises e
  end.

End Json.

(** ** The extraction functions of [app.py] *)

Import Py.

Definition Unknown : str := lit "Unknown".

(** [extract_value(text, start_marker, end_marker)], lines 16-27. *)
Definition extract_value (text start_marker end_marker : str) : outcome str :=
  try_except
    (let start_index := find text start_marker in
     let end_index := find_from text end_marker start_index in
     if negb (start_index =? -1) && negb (end_index =? -1)
     then Returns (slice text (start_index + len start_marker) end_index)
     else Returns Unknown)
    (fun _ => Returns Unknown).

Definition anchor : str := lit "mime_type=audio_mp4".

(** The span [response_text[start_index:end_index]] of line 39, for the
    anchor found at [mime_index]. *)
Definition url_span (response_text : str) (mime_index : Z) : str :=
  let start_index := rfind_in response_text (lit ":") 0 mime_index + 1 in
  let end_index := find_from response_text (lit ",") mime_index in
  slice response_text start_index end_index.

(** [raw_url] of line 39: the span after [.strip()] and then [.strip] of
    the one-character string holding the double quote. *)
Definition trim_span (span : str) : str := strip_chars (strip span) [dquote].

(** Lines 41-45: decode, then prefix a protocol-relative URL. *)
Definition decode_url (raw_url : str) : outcome str :=
  track_url ← Json.loads_quoted raw_url ;
  if startswith track_url (lit "//")
  then Returns (lit "https:" ++ track_url)
  else Returns track_url.

(** [extract_track_url(response_text)], lines 30-48. *)
Definition extract_track_url (response_text : str) : outcome str :=
  try_except
    (let mime_index := find response_text anchor in
     if mime_index =? -1 then Returns Unknown
     else
       let raw_url := trim_span (url_span response_text mime_index) in
       decode_url raw_url)
    (fun _ => Returns Unknown).

(** The dict that line 66 builds. *)
Definition track_record (track_name artist_name cover_url track_url : str) : gmap string str :=
  <["track_name" := track_name]>
    (<["artist_name" := artist_name]>
      (<["cover_url" := cover_url]>
        (<["track_url" := track_url]> ∅))).

(** [extract_and_log_data(response_text)], lines 51-69.  The returned dict
    is a finite map from key to string; the handler returns the empty
    dict. *)
Definition extract_and_log_data (response_text : str) : outcome (gmap string str) :=
  try_except
    (track_name ← extract_value response_text (litq "'trackName':'") (litq "','") ;
     artist_name ← extract_value response_text (litq "'artistName':'") (litq "','") ;
     cover_url ← extract_value response_text (litq "'coverURL':'") (litq "','") ;
     cover_url ← Json.loads_quoted cover_url ;
     track_url ← extract_track_url response_text ;
     Returns (track_record track_name artist_name cover_url track_url))
    (fun _ => Returns ∅).

(** ** [download_and_set_metadata]

    The function talks to the network, to the file system and to the MP4
    library.  The file system is a finite map from file name to content and
    is threaded through the calls; an exception leaves it as it was when the
    exception was raised.  What the outside world answers is given by an
    environment. *)

Definition bytes := list Byte.byte.

(** The part of a [requests] response the function reads. *)
Record response := {
  status_code : Z;
  headers : gmap string str;
  content : bytes
}.

(** The tag dictionary of an MP4 file: atom name to value. *)
Inductive image_format := FORMAT_JPEG | FORMAT_PNG.
Inductive tag_value :=
  | TagText (s : str)
  | TagCovers (covers : list (bytes * image_format)).

Record env := {
  (** the answer to [session.get(url)]: a response, or an exception (no
      connection, or a URL that is none, such as one without scheme) *)
  network : str -> outcome response;
  (** the name [NamedTemporaryFile] gives to the file it creates *)
  temp_name : string;
  (** [MP4(filename)] on a file with this content: its tags, or an exception *)
  mp4_load : bytes -> outcome (gmap string tag_value);
  (** [audio.save()]: the content of the file rewritten with these tags *)
  mp4_save : bytes -> gmap string tag_value -> outcome bytes;
  (** what an [audio.save()] that raises leaves in the file, which the
      library rewrites in place *)
  mp4_save_leaves : bytes -> gmap string tag_value -> bytes
}.

Abbreviation files := (gmap string bytes).

Definition io (A : Type) : Type := files -> outcome A * files.

#[global] Instance io_ret : MRet io := fun A a fs => (Returns a, fs).
#[global] Instance io_bind : MBind io := fun A B k m fs =>
  match m fs with
  | (Returns a, fs') => k a fs'
  | (Raises e, fs') => (Raises e, fs')
  end.

Definition raise {A} (e : exc) : io A := fun fs => (Raises e, fs).

Definition lift {A} (r : outcome A) : io A := fun fs => (r, fs).

(** [try: body  except Exception: handler] *)
Definition try_io {A} (body : io A) (handler : exc -> io A) : io A := fun fs =>
  match body fs with
  | (Returns a, fs') => (Returns a, fs')
  | (Raises e, fs') => handler e fs'
  end.

(** [try: x = body  except Exception: ...], with the outcome handed to the
    code that follows. *)
Definition attempt {A} (body : io A) : io (outcome A) := fun fs =>
  match body fs with
  | (r, fs') => (Returns r, fs')
  end.

Section Download.

Variable E : env.

(** [d[key]] *)
Definition getitem (d : gmap string str) (key : string) : io str :=
  match d !! key with
  | Some v => mret v
  | None => raise (KeyError key)
  end.

Definition session_get (url : str) : io response := lift (network E url).

(** Lines 104-106: create the temporary file, write, close. *)
Definition write_temp_file (data : bytes) : io string := fun fs =>
  (Returns (temp_name E), <[temp_name E := data]> fs).

(** [os.unlink(name)] *)
Definition unlink (name : string) : io unit := fun fs =>
  match fs !! name with
  | Some _ => (Returns tt, delete name fs)
  | None => (Raises OSError, fs)
  end.

(** [MP4(name)] *)
Definition MP4 (name : string) : io (gmap string tag_value) := fun fs =>
  match fs !! name with
  | Some data => (mp4_load E data, fs)
  | None => (Raises MutagenError, fs)
  end.

(** [audio.save()] for the tags [audio] of the file [name].  The library
    rewrites the file in place: when it raises, the file holds what the
    library left there. *)
Definition save (name : string) (audio : gmap string tag_value) : io unit := fun fs =>
  match fs !! name with
  | Some data =>
      match mp4_save E data audio with
      | Returns data' => (Returns tt, <[name := data']> fs)
      | Raises e => (Raises e, <[name := mp4_save_leaves E data audio]> fs)
      end
  | None => (Raises MutagenError, fs)
  end.

(** [open(name, 'rb').read()] *)
Definition read_file (name : string) : io bytes := fun fs =>
  match fs !! name with
  | Some data => (Returns data, fs)
  | None => (Raises OSError, fs)
  end.

(** Lines 90-101: the audio request and its two checks.  [None] is the
    early [return None, None]. *)
Definition download_audio (track_url : str) : io (option bytes) :=
  response ← session_get track_url ;
  if negb (status_code response =? 200) then mret None
  else
    let content_type := default [] (headers response !! "Content-Type") in
    if negb (contains content_type (lit "audio/mp4"))
       && negb (contains content_type (lit "video/mp4"))
    then mret None
    else mret (Some (content response)).

(** Lines 125-127: the three assignments to the tags. *)
Definition set_tags (audio : gmap string tag_value)
    (track_name artist_name : str) (cover_data : bytes) : gmap string tag_value :=
  <["covr" := TagCovers [(cover_data, FORMAT_JPEG)]]>
    (<["©ART" := TagText artist_name]>
      (<["©nam" := TagText track_name]> audio)).

(** [download_and_set_metadata(track_data)], lines 79-142.  The result is
    the pair of the output buffer and the file name, both [None] on
    failure. *)
Definition download_and_set_metadata (track_data : gmap string str)
  : io (option bytes * option str) :=
  try_io
    (track_url ← getitem track_data "track_url" ;
     track_name ← getitem track_data "track_name" ;
     artist_name ← getitem track_data "artist_name" ;
     cover_url ← getitem track_data "cover_url" ;
     audio_content ← download_audio track_url ;
     match audio_content with
     | None => mret (None, None)
     | Some audio_content =>
         temp_audio ← write_temp_file audio_content ;
         response ← session_get cover_url ;
         if negb (status_code response =? 200) then
           _ ← unlink temp_audio ;
           mret (None, None)
         else
           let cover_data := content response in
           loaded ← attempt (MP4 temp_audio) ;
           match loaded with
           | Raises _ =>
               _ ← unlink temp_audio ;
               mret (None, None)
           | Returns audio =>
               let audio := set_tags audio track_name artist_name cover_data in
               _ ← save temp_audio audio ;
               output_buffer ← read_file temp_audio ;
               _ ← unlink temp_audio ;
               mret (Some output_buffer,
                     Some (track_name ++ lit " - " ++ artist_name ++ lit ".m4a"))
           end
     end)
    (fun _ => mret (None, None)).

End Download.

(** The test of lines 91 and 97 on the audio response. *)
Definition accepted (r : response) : bool :=
  let content_type := default [] (headers r !! "Content-Type") in
  (status_code r =? 200)
  && (contains content_type (lit "audio/mp4") || contains content_type (lit "video/mp4")).

(** ** The callers: [fetch_and_process] and the [/download] route *)

Section Transport.

Variable E : env.

(** [response.text]: the body of a response as [requests] decodes it. *)
Variable text_of : response -> str.

(** [fetch_and_process(url)], lines 145-165.  The test [if audio_buffer]
    of line 156 is on an object that is [None] or a [BytesIO], and a
    [BytesIO] is true whatever it holds. *)
Definition fetch_and_process (url : str) : io (option bytes * option str) :=
  try_io
    (response ← session_get E url ;
     if status_code response =? 200 then
       let response_text := text_of response in
       track_data ← lift (extract_and_log_data response_text) ;
       result ← download_and_set_metadata E track_data ;
       match result with
       | (Some audio_buffer, filename) => mret (Some audio_buffer, filename)
       | (None, _) => mret (None, None)
       end
     else mret (None, None))
    (fun _ => mret (None, None)).

(** What the route answers: [jsonify({'error': message}), status], or
    the response [send_file] builds. *)
Inductive flask_response :=
  | JsonError (message : str) (status : Z)
  | SendFile (data : bytes) (as_attachment : bool) (download_name mimetype : str).

(** A carriage return or a line feed in a string. *)
Definition has_newline (s : str) : bool :=
  existsb (fun c => (c =? 13) || (c =? 10))%N s.

(** [send_file(buffer, as_attachment, download_name, mimetype)].  The name
    goes into the [Content-Disposition] header, and a header value with a
    carriage return or a line feed is refused with [ValueError]. *)
Definition send_file (data : bytes) (as_attachment : bool)
    (download_name mimetype : str) : io flask_response :=
  if has_newline download_name then raise ValueError
  else mret (SendFile data as_attachment download_name mimetype).

(** [download_track()], lines 168-185, for the value [url] of
    [request.args.get('url')]: [None] when the query has no such argument.
    [not url] holds for [None] and for the empty string; [filename] counts as
    true when it is a string that is not empty.  The route has no handler:
    what [send_file] raises leaves the function. *)
Definition download_track (url : option str) : io flask_response :=
  match url with
  | None | Some [] => mret (JsonError (lit "No URL provided") 400)
  | Some url =>
      result ← fetch_and_process url ;
      match result with
      | (Some audio_buffer, Some (c :: filename)) =>
          send_file audio_buffer true (c :: filename) (lit "audio/mp4")
      | _ => mret (JsonError (lit "Failed to process the track") 500)
      end
  end.

End Transport.

(** ** Occurrences of a substring

    The claims speak of a marker that occurs, or does not occur, at some
    place of the text.  These predicates say so without [find]: they are
    executable, and [occurs_at_spec] below reads them as a decomposition of
    the text. *)

(** [sub] occurs in [s] at index [k]. *)
Definition occurs_at (s sub : str) (k : nat) : bool :=
  (k + length sub <=? length s)%nat && startswith (drop k s) sub.

(** [sub] occurs in [s] at no index [k] with [lo <= k]. *)
Definition absent_from (s sub : str) (lo : nat) : bool :=
  forallb (fun k => negb (occurs_at s sub k)) (seq lo (S (length s) - lo)).

(** [sub] occurs in [s] at no index [k] with [lo <= k < hi]. *)
Definition absent_between (s sub : str) (lo hi : nat) : bool :=
  forallb (fun k => negb (occurs_at s sub k)) (seq lo (hi - lo)).

(** The first occurrence of [sub] in [s] is at index [k]. *)
Definition first_at (s sub : str) (k : nat) : bool :=
  occurs_at s sub k && absent_between s sub 0 k.

(** A character that stands for itself inside a JSON string: no double
    quote, no backslash, no control character. *)
Definition plain (c : char) : bool :=
  (negb (c =? dquote) && negb (c =? backslash) && negb (c <=? 31))%N.

(** A character that can stand after the backslash of an escape, or
    further inside it: a backslash, the letter u, the letter of a
    one-character escape, or a hexadecimal digit. *)
Definition escape_part (x : char) : bool :=
  (x =? backslash)%N || (x =? 117)%N
  || match Json.simple_escape x with Some _ => true | None => false end
  || match Json.hexval x with Some _ => true | None => false end.

(** The anchor without its last character. *)
Definition anchor_stem : str := lit "mime_type=audio_mp".

(** ** A reading of the specification

    The specification's sentence on trimming, read literally: white space
    is removed around the span, and then one double quote at its start
    together with one at its end, when both are there. *)
Definition trim_single_pair (span : str) : str :=
  let t := strip span in
  match t with
  | c :: t' =>
      match reverse t' with
      | d :: r => if ((c =? dquote) && (d =? dquote))%N then reverse r else t
      | [] => t
      end
  | [] => t
  end.

(** ** Data for the examples *)

Definition audio_data : bytes := [Byte.x00; Byte.x00; Byte.x00; Byte.x18; Byte.x66; Byte.x74; Byte.x79; Byte.x70].
Definition cover_jpeg : bytes := [Byte.xff; Byte.xd8; Byte.xff; Byte.xe0].

Definition mp4_response (status : Z) : response :=
  {| status_code := status;
     headers := {["Content-Type" := lit "audio/mp4"]};
     content := audio_data |}.

Definition jpeg_response : response :=
  {| status_code := 200;
     headers := {["Content-Type" := lit "image/jpeg"]};
     content := cover_jpeg |}.

(** A world in which the audio URL answers with [audio_status], the cover
    URL with a JPEG and every other [https] URL with status 404; a URL
    without scheme, as the sentinel [Unknown] is, makes [requests] raise;
    the MP4 library reads and writes every file. *)
Definition world (audio_status : Z) : env :=
  {| network := fun url =>
       if bool_decide (url = lit "https://cdn/a.m4a?mime_type=audio_mp4")
       then Returns (mp4_response audio_status)
       else if bool_decide (url = lit "https://img/c.jpg") then Returns jpeg_response
       else if startswith url (lit "https://")
       then Returns {| status_code := 404; headers := ∅; content := [] |}
       else Raises RequestException;
     temp_name := "/tmp/tmpq1w2e3.m4a";
     mp4_load := fun _ => Returns ∅;
     mp4_save := fun data _ => Returns data;
     mp4_save_leaves := fun data _ => data |}.

Definition song (cover_url : str) : gmap string str :=
  track_record (lit "Song") (lit "Artist") cover_url
    (lit "https://cdn/a.m4a?mime_type=audio_mp4").

(** The URL value with the anchor in it, between its colon and its comma. *)
Definition url_field : str := litq "':'//example.cdn/a.mp4?mime_type=audio_mp4',".

(** The world of [world 200] with an MP4 library that cannot write: its
    [save] raises and leaves the first four bytes of the file. *)
Definition world_save_fails : env :=
  {| network := network (world 200);
     temp_name := temp_name (world 200);
     mp4_load := mp4_load (world 200);
     mp4_save := fun _ _ => Raises MutagenError;
     mp4_save_leaves := fun data _ => take 4 data |}.










(** A track page, and a world in which the page URL answers with
    [page_status] and everything else is as in [world 200]. *)
Definition page : str :=
  litq "{'trackName':'Song','artistName':'Artist','coverURL':'https:\/\/img\/c.jpg','url':'https://cdn/a.m4a?mime_type=audio_mp4','n':1}".

Definition site (page_status : Z) : env :=
  {| network := fun url =>
       if bool_decide (url = lit "https://music/track")
       then Returns {| status_code := page_status; headers := ∅; content := [] |}
       else network (world 200) url;
     temp_name := temp_name (world 200);
     mp4_load := mp4_load (world 200);
     mp4_save := mp4_save (world 200);
     mp4_save_leaves := mp4_save_leaves (world 200) |}.

Definition page_text (r : response) : str := page.


(** * Properties *)

(** ** The string primitives *)

Section StringFacts.

Implicit Types (s w sub pre post : str) (k j lo hi : nat).

Lemma startswith_app sub post : startswith (sub ++ post) sub = true.
Proof. induction sub as [|a sub IH]; simpl; [done|]. by rewrite N.eqb_refl. Qed.

Lemma startswith_inv s sub :
  startswith s sub = true -> exists post, s = sub ++ post.
Proof.
  revert s. induction sub as [|a sub IH]; intros s H; simpl in *.
  - by exists s.
  - destruct s as [|b s]; [done|].
    apply andb_true_iff in H as [Hab Hs]. apply N.eqb_eq in Hab as ->.
    destruct (IH _ Hs) as [post ->]. by exists post.
Qed.

Lemma startswith_length s sub :
  startswith s sub = true -> (length sub <= length s)%nat.
Proof.
  intros H. destruct (startswith_inv _ _ H) as [post ->].
  rewrite length_app. lia.
Qed.

Lemma occurs_at_spec s sub k :
  occurs_at s sub k = true <->
  exists pre post, s = pre ++ sub ++ post /\ length pre = k.
Proof.
  unfold occurs_at. rewrite andb_true_iff, Nat.leb_le. split.
  - intros [Hk Hs]. destruct (startswith_inv _ _ Hs) as [post Hpost].
    exists (take k s), post. split.
    + by rewrite <- Hpost, take_drop.
    + rewrite length_take. lia.
  - intros (pre & post & -> & <-). split.
    + rewrite !length_app. lia.
    + rewrite drop_app_length. apply startswith_app.
Qed.

Lemma absent_between_spec s sub lo hi :
  absent_between s sub lo hi = true <->
  forall k, (lo <= k < hi)%nat -> occurs_at s sub k = false.
Proof.
  unfold absent_between. rewrite forallb_forall. split.
  - intros H k Hk. apply negb_true_iff, H, in_seq. lia.
  - intros H k Hk%in_seq. apply negb_true_iff, H. lia.
Qed.

Lemma absent_from_spec s sub lo :
  absent_from s sub lo = true <->
  forall k, (lo <= k)%nat -> occurs_at s sub k = false.
Proof.
  unfold absent_from. rewrite forallb_forall. split.
  - intros H k Hk. destruct (decide (k <= length s)%nat) as [Hle|Hgt].
    + apply negb_true_iff, H, in_seq. lia.
    + unfold occurs_at. apply andb_false_iff. left. apply Nat.leb_gt. lia.
  - intros H k Hk%in_seq. apply negb_true_iff, H. lia.
Qed.

(** [first_index] finds nothing in a window without an occurrence, and the
    first occurrence in one that has some. *)
Lemma first_index_none w sub :
  (forall j, (j <= length w)%nat -> startswith (drop j w) sub = false) ->
  first_index w sub = None.
Proof.
  induction w as [|c w IH]; intros H;
    pose proof (H 0%nat ltac:(lia)) as H0; simpl in *; rewrite H0; [done|].
  rewrite IH; [done|]. intros j Hj. apply (H (S j)). lia.
Qed.

Lemma first_index_some w sub k :
  startswith (drop k w) sub = true ->
  (forall j, (j < k)%nat -> startswith (drop j w) sub = false) ->
  (k <= length w)%nat ->
  first_index w sub = Some k.
Proof.
  revert w. induction k as [|k IH]; intros w Hk Hlt Hlen.
  - destruct w; simpl in *; by rewrite Hk.
  - destruct w as [|c w]; [simpl in Hlen; lia|].
    pose proof (Hlt 0%nat ltac:(lia)) as H0. simpl in *. rewrite H0.
    rewrite (IH w); [done| done | | lia].
    intros j Hj. apply (Hlt (S j)). lia.
Qed.

Lemma first_index_bound w sub k :
  first_index w sub = Some k ->
  (k + length sub <= length w)%nat /\ startswith (drop k w) sub = true.
Proof.
  revert k. induction w as [|c w IH]; intros k; simpl.
  - destruct (startswith [] sub) eqn:E; [|done].
    intros [= <-]. split; [|done]. apply startswith_length in E. simpl in *. lia.
  - destruct (startswith (c :: w) sub) eqn:E.
    + intros [= <-]. split; [|done]. apply startswith_length in E. simpl in *. lia.
    + destruct (first_index w sub) as [k'|] eqn:E'; simpl; [|done].
      intros [= <-]. destruct (IH _ eq_refl) as [H1 H2]. split; [lia | done].
Qed.

Lemma last_index_bound w sub k :
  last_index w sub = Some k -> (k + length sub <= length w)%nat.
Proof.
  revert k. induction w as [|c w IH]; intros k; simpl.
  - destruct (startswith [] sub) eqn:E; [|done].
    intros [= <-]. apply startswith_length in E. simpl in *. lia.
  - destruct (last_index w sub) as [k'|] eqn:E'.
    + intros [= <-]. specialize (IH _ eq_refl). lia.
    + destruct (startswith (c :: w) sub) eqn:E; [|done].
      intros [= <-]. apply startswith_length in E. simpl in *. lia.
Qed.

Lemma last_index_app w1 w2 sub k :
  last_index w2 sub = Some k ->
  last_index (w1 ++ w2) sub = Some (length w1 + k)%nat.
Proof.
  intros H. induction w1 as [|c w1 IH]; simpl; [done|]. by rewrite IH.
Qed.

Lemma occurs_at_false_startswith s sub k :
  (k <= length s)%nat -> occurs_at s sub k = false ->
  startswith (drop k s) sub = false.
Proof.
  intros Hk Hocc. destruct (startswith (drop k s) sub) eqn:E; [|done].
  pose proof (startswith_length _ _ E) as Hl. rewrite length_drop in Hl.
  unfold occurs_at in Hocc. rewrite E, andb_true_r in Hocc.
  apply Nat.leb_gt in Hocc. lia.
Qed.

Lemma occurs_at_bound s sub k :
  occurs_at s sub k = true -> (k + length sub <= length s)%nat.
Proof. unfold occurs_at. intros [H _]%andb_true_iff. by apply Nat.leb_le. Qed.

(** [s.find(sub, a)] for a start [a] that is not negative. *)
Lemma find_from_unfold s sub (a : nat) :
  find_from s sub (Z.of_nat a) =
  if len s - Z.of_nat a <? len sub then -1
  else match first_index (drop a s) sub with
       | Some k => Z.of_nat a + Z.of_nat k
       | None => -1
       end.
Proof.
  unfold find_from, find_in, window_start, window, norm_index, len.
  replace (Z.of_nat a <? 0) with false by (symmetry; apply Z.ltb_ge; lia).
  replace (Z.of_nat (length s) <? 0) with false by (symmetry; apply Z.ltb_ge; lia).
  rewrite Z.min_id, Nat2Z.id.
  destruct (Z.ltb_spec (Z.of_nat (length s) - Z.of_nat a) (Z.of_nat (length sub))); [done|].
  rewrite take_ge; [done|]. rewrite length_drop. lia.
Qed.

Lemma find_from_none s sub (a : nat) :
  absent_from s sub a = true -> find_from s sub (Z.of_nat a) = -1.
Proof.
  intros Habs. rewrite find_from_unfold.
  destruct (Z.ltb_spec (len s - Z.of_nat a) (len sub)) as [|Hge]; [done|].
  unfold len in Hge.
  rewrite first_index_none; [done|].
  intros j Hj. rewrite length_drop in Hj. rewrite drop_drop.
  apply occurs_at_false_startswith; [lia|].
  apply (proj1 (absent_from_spec _ _ _) Habs). lia.
Qed.

Lemma find_from_first s sub (a k : nat) :
  (a <= k)%nat -> occurs_at s sub k = true -> absent_between s sub a k = true ->
  find_from s sub (Z.of_nat a) = Z.of_nat k.
Proof.
  intros Hak Hocc Habs. rewrite find_from_unfold.
  pose proof (occurs_at_bound _ _ _ Hocc) as Hb.
  destruct (Z.ltb_spec (len s - Z.of_nat a) (len sub)) as [Hlt|_];
    [unfold len in Hlt; lia|].
  rewrite (first_index_some _ _ (k - a)).
  - lia.
  - rewrite drop_drop. replace (a + (k - a))%nat with k by lia.
    unfold occurs_at in Hocc. by apply andb_true_iff in Hocc as [_ ?].
  - intros j Hj. rewrite drop_drop.
    apply occurs_at_false_startswith; [lia|].
    apply (proj1 (absent_between_spec _ _ _ _) Habs). lia.
  - rewrite length_drop. lia.
Qed.

Lemma find_none s sub : absent_from s sub 0 = true -> find s sub = -1.
Proof. apply (find_from_none s sub 0). Qed.

Lemma find_first s sub k : first_at s sub k = true -> find s sub = Z.of_nat k.
Proof.
  unfold first_at. intros [Hocc Habs]%andb_true_iff.
  apply (find_from_first s sub 0 k); [lia | done | done].
Qed.

(** What [find] returns is [-1] or the index of an occurrence that is not
    before the start. *)
Lemma find_from_found s sub (a : nat) r :
  find_from s sub (Z.of_nat a) = r -> r <> -1 ->
  exists k, r = Z.of_nat k /\ (a <= k)%nat /\ occurs_at s sub k = true.
Proof.
  rewrite find_from_unfold.
  destruct (Z.ltb_spec (len s - Z.of_nat a) (len sub)) as [|Hge]; [congruence|].
  unfold len in Hge.
  destruct (first_index (drop a s) sub) as [k|] eqn:E; [|congruence].
  intros <- _. exists (a + k)%nat. split; [lia|]. split; [lia|].
  apply first_index_bound in E as [Hb Hs]. rewrite length_drop in Hb.
  rewrite drop_drop in Hs. unfold occurs_at.
  apply andb_true_iff. split; [apply Nat.leb_le; lia | done].
Qed.

(** A slice between two indices of the string. *)
Lemma slice_inside s (a b : nat) :
  (a <= b <= length s)%nat ->
  slice s (Z.of_nat a) (Z.of_nat b) = take (b - a) (drop a s).
Proof.
  intros H. unfold slice, norm_index, len.
  replace (Z.of_nat a <? 0) with false by (symmetry; apply Z.ltb_ge; lia).
  replace (Z.of_nat b <? 0) with false by (symmetry; apply Z.ltb_ge; lia).
  rewrite !Z.min_l by lia. rewrite Nat2Z.id. f_equal. lia.
Qed.

End StringFacts.

(** ** [extract_value] *)

Section ExtractValue.

Variables text start_marker end_marker : str.

(** The function always takes one of its two return statements. *)
Lemma extract_value_returns : exists v, extract_value text start_marker end_marker = Returns v.
Proof.
  unfold extract_value, try_except.
  destruct (negb _ && negb _); eauto.
Qed.

Lemma extract_value_no_start :
  find text start_marker = -1 ->
  extract_value text start_marker end_marker = Returns Unknown.
Proof. intros H. unfold extract_value. by rewrite H. Qed.

Lemma extract_value_no_end :
  find_from text end_marker (find text start_marker) = -1 ->
  extract_value text start_marker end_marker = Returns Unknown.
Proof.
  intros H. unfold extract_value. rewrite H. simpl. by rewrite andb_false_r.
Qed.

(** When both searches succeed the result is the slice of line 22. *)
Lemma extract_value_found (k e : nat) :
  find text start_marker = Z.of_nat k ->
  find_from text end_marker (Z.of_nat k) = Z.of_nat e ->
  extract_value text start_marker end_marker =
  Returns (slice text (Z.of_nat k + len start_marker) (Z.of_nat e)).
Proof.
  intros Hs He. unfold extract_value. rewrite Hs, He. simpl.
  destruct (Z.eqb_spec (Z.of_nat k) (-1)); [lia|].
  destruct (Z.eqb_spec (Z.of_nat e) (-1)); [lia|]. done.
Qed.

End ExtractValue.

(** C7.  [extract_value] never raises: for all arguments it returns a
    string.  It returns the sentinel [Unknown] whenever the start marker
    does not occur in the text, and whenever the start marker is matched at
    index [k] (its first occurrence) and the end marker occurs at no index
    from [k] on. *)
Theorem extract_value_sentinel (text start_marker end_marker : str) :
  (exists v, extract_value text start_marker end_marker = Returns v) /\
  (absent_from text start_marker 0 = true ->
   extract_value text start_marker end_marker = Returns Unknown) /\
  (forall k, first_at text start_marker k = true ->
             absent_from text end_marker k = true ->
             extract_value text start_marker end_marker = Returns Unknown).
Proof.
  split; [apply extract_value_returns|]. split.
  - intros H. apply extract_value_no_start. by apply find_none.
  - intros k Hk He. apply extract_value_no_end.
    rewrite (find_first _ _ _ Hk). by apply find_from_none.
Qed.

Lemma extract_value_sentinel_witness :
  extract_value (litq "'artistName':'Artist','") (litq "'trackName':'") (litq "','")
    = Returns Unknown /\
  extract_value (litq "{'trackName':'Song'}") (litq "'trackName':'") (litq "','")
    = Returns Unknown.
Proof.
  split.
  - apply (proj1 (proj2 (extract_value_sentinel _ _ _))). vm_compute. reflexivity.
  - apply (proj2 (proj2 (extract_value_sentinel _ _ _)) 1%nat); vm_compute; reflexivity.
Defined.

(** X1.  Where the end marker does not occur before the end of the value,
    the result is the value: for [text = pre ++ start_marker ++ value ++
    end_marker ++ post] with the start marker first matched after [pre] and
    no occurrence of the end marker from that match up to the end of
    [value], [extract_value] returns [value]. *)
Lemma extract_value_between (pre start_marker value end_marker post : str) :
  let text := pre ++ start_marker ++ value ++ end_marker ++ post in
  first_at text start_marker (length pre) = true ->
  absent_between text end_marker (length pre)
    (length pre + length start_marker + length value) = true ->
  extract_value text start_marker end_marker = Returns value.
Proof.
  intros text Hfirst Habs.
  set (k := length pre). set (e := (k + length start_marker + length value)%nat).
  assert (He : occurs_at text end_marker e = true).
  { apply occurs_at_spec. exists (pre ++ start_marker ++ value), post.
    split; [by rewrite <- !(assoc_L (++))|]. rewrite !length_app. lia. }
  rewrite (extract_value_found _ _ _ k e).
  - f_equal. unfold len. rewrite <- Nat2Z.inj_add.
    pose proof (occurs_at_bound _ _ _ He).
    rewrite slice_inside by lia.
    replace (e - (k + length start_marker))%nat with (length value) by lia.
    unfold text. rewrite (assoc_L (++) pre).
    replace (k + length start_marker)%nat with (length (pre ++ start_marker))
      by (rewrite length_app; lia).
    rewrite drop_app_length. by rewrite take_app_length.
  - by apply find_first.
  - apply find_from_first; [lia | done | done].
Qed.

(** C3.  A page whose track name is a single comma (the text below, in the
    notation of [litq]).  The start marker is matched at index 1 and ends
    at index 14; the first end marker at or after index 14
    is at index 15, and the text strictly between is the one-character
    string holding the comma.  [extract_value] searches the end marker from
    index 1 on, finds the one that begins with the closing quote of the
    start marker, at index 13, and returns the empty string. *)
Lemma extract_value_overlapping_end_marker :
  let text := litq "{'trackName':',','artistName':'x'," in
  let start_marker := litq "'trackName':'" in
  let end_marker := litq "','" in
  first_at text start_marker 1 = true /\
  len start_marker = 13 /\
  occurs_at text end_marker 15 = true /\
  absent_between text end_marker 14 15 = true /\
  slice text 14 15 = lit "," /\
  find_from text end_marker 1 = 13 /\
  extract_value text start_marker end_marker = Returns [].
Proof. vm_compute. repeat split; reflexivity. Qed.

(** ** Stripping *)

Section Strip.

Variable p : char -> bool.

Lemma lstrip_with_split (s : str) :
  exists l, s = l ++ lstrip_with p s /\ forallb p l = true.
Proof.
  induction s as [|c s (l & Hs & Hl)]; simpl.
  - by exists [].
  - destruct (p c) eqn:E.
    + exists (c :: l). simpl. rewrite E, Hl. split; [by f_equal | done].
    + by exists [].
Qed.

Lemma lstrip_with_head (s : str) c :
  head (lstrip_with p s) = Some c -> p c = false.
Proof.
  induction s as [|a s IH]; simpl; [done|].
  destruct (p a) eqn:E; [done|]. simpl. by intros [= <-].
Qed.

Lemma rstrip_with_split (s : str) :
  exists r, s = rstrip_with p s ++ r /\ forallb p r = true.
Proof.
  unfold rstrip_with. destruct (lstrip_with_split (reverse s)) as (l & Hs & Hl).
  exists (reverse l). split.
  - rewrite <- reverse_app, <- Hs. by rewrite reverse_involutive.
  - rewrite forallb_forall in *. intros x Hx. apply Hl.
    by apply list_elem_of_In, elem_of_reverse, list_elem_of_In.
Qed.

Lemma rstrip_with_last (s : str) c :
  last (rstrip_with p s) = Some c -> p c = false.
Proof.
  unfold rstrip_with. rewrite last_reverse. apply lstrip_with_head.
Qed.

Lemma strip_with_split (s : str) :
  exists l r, s = l ++ strip_with p s ++ r /\
              forallb p l = true /\ forallb p r = true.
Proof.
  destruct (lstrip_with_split s) as (l & Hs & Hl).
  destruct (rstrip_with_split (lstrip_with p s)) as (r & Ht & Hr).
  exists l, r. unfold strip_with. by rewrite <- Ht.
Qed.

Lemma strip_with_ends (s : str) c :
  head (strip_with p s) = Some c \/ last (strip_with p s) = Some c ->
  p c = false.
Proof.
  intros [H|H]; [|by apply rstrip_with_last in H].
  unfold strip_with in *.
  destruct (rstrip_with_split (lstrip_with p s)) as (r & Ht & _).
  apply (lstrip_with_head s). rewrite Ht.
  destruct (rstrip_with p (lstrip_with p s)); [done | by simpl in *].
Qed.

End Strip.

Lemma forallb_is_dquote (l : str) :
  forallb (fun c => mem c [dquote]) l = true -> l = replicate (length l) dquote.
Proof.
  induction l as [|c l IH]; simpl; [done|].
  intros [Hc Hl]%andb_true_iff. rewrite <- IH by done.
  rewrite orb_false_r in Hc. by apply N.eqb_eq in Hc as ->.
Qed.

(** ** [extract_track_url] *)

Lemma decode_url_cases (raw_url : str) :
  (exists v, decode_url raw_url = Returns v) \/
  (exists e, decode_url raw_url = Raises e /\ Json.loads_quoted raw_url = Raises e).
Proof.
  unfold decode_url, mbind, outcome_bind.
  destruct (Json.loads_quoted raw_url) as [u|e]; unfold obind.
  - left. destruct (startswith u (lit "//")); eauto.
  - right. eauto.
Qed.

Lemma extract_track_url_returns (response_text : str) :
  exists v, extract_track_url response_text = Returns v.
Proof.
  unfold extract_track_url, try_except.
  destruct (_ =? -1); [eauto|].
  destruct (decode_url_cases
              (trim_span (url_span response_text (find response_text anchor))))
    as [[v ->]|(e & -> & _)]; eauto.
Qed.

(** C8.  [extract_track_url] never raises: for every text it returns a
    string.  It returns [Unknown] whenever the anchor [mime_type=audio_mp4]
    does not occur in the text, and whenever [json.loads] raises on the
    quoted, trimmed span. *)
Theorem extract_track_url_sentinel (response_text : str) :
  (exists v, extract_track_url response_text = Returns v) /\
  (absent_from response_text anchor 0 = true ->
   extract_track_url response_text = Returns Unknown) /\
  (forall e,
     Json.loads_quoted
       (trim_span (url_span response_text (find response_text anchor))) = Raises e ->
     extract_track_url response_text = Returns Unknown).
Proof.
  split; [apply extract_track_url_returns|].
  unfold extract_track_url, try_except. split.
  - intros H. by rewrite (find_none _ _ H).
  - intros e H. destruct (_ =? -1); [done|].
    unfold decode_url, mbind, outcome_bind. by rewrite H.
Qed.

Lemma extract_track_url_sentinel_witness :
  extract_track_url (litq "{'trackName':'Song','url':'//cdn/a.m4a'}") = Returns Unknown /\
  extract_track_url (litq "{'url':'\x/cdn/a.m4a?mime_type=audio_mp4','n':1}") = Returns Unknown.
Proof.
  split.
  - apply (proj1 (proj2 (extract_track_url_sentinel _))). vm_compute. reflexivity.
  - apply (proj2 (proj2 (extract_track_url_sentinel _)) JSONDecodeError).
    vm_compute. reflexivity.
Defined.

(** C9, as stated, fails.  In the text below, written in the notation of
    [litq], the URL value stands between two double quotes on either side,
    with a blank before and after.  The scans of lines 36 and 37 cut out the
    span from the blank to the blank; line 39 removes the blanks and then
    both quotes on either side, where removing one pair would keep the inner
    pair, and the function returns the URL, on which it would return the
    sentinel had the inner quotes been kept. *)
Lemma trim_span_strips_inner_quotes :
  let text := litq "{'u': ''//cdn/a.m4a?mime_type=audio_mp4'' ,'n':1}" in
  let span := url_span text (find text anchor) in
  span = litq " ''//cdn/a.m4a?mime_type=audio_mp4'' " /\
  trim_single_pair span = litq "'//cdn/a.m4a?mime_type=audio_mp4'" /\
  trim_span span = lit "//cdn/a.m4a?mime_type=audio_mp4" /\
  trim_span span <> trim_single_pair span /\
  decode_url (trim_single_pair span) = Raises JSONDecodeError /\
  extract_track_url text = Returns (lit "https://cdn/a.m4a?mime_type=audio_mp4").
Proof. vm_compute. repeat split; try reflexivity. discriminate. Qed.

(** C9, amended.  Line 39 takes the span apart into white space, double
    quotes, the trimmed span, double quotes and white space: it removes all
    the white space at either end of the span, and then all the double
    quotes at either end of what is left, however many there are on either
    side.  What is left between the white space neither starts nor ends
    with a white-space character, and the trimmed span neither starts nor
    ends with a double quote. *)
Theorem trim_span_all_quotes (span : str) :
  exists ws1 ws2 n m,
    let core := replicate n dquote ++ trim_span span ++ replicate m dquote in
    span = ws1 ++ core ++ ws2 /\
    forallb isspace ws1 = true /\ forallb isspace ws2 = true /\
    (forall c, head core = Some c \/ last core = Some c -> isspace c = false) /\
    head (trim_span span) <> Some dquote /\
    last (trim_span span) <> Some dquote.
Proof.
  unfold trim_span, strip_chars.
  set (q := fun c => mem c [dquote]).
  destruct (strip_with_split isspace span) as (ws1 & ws2 & Hspan & Hws1 & Hws2).
  fold (strip span) in Hspan.
  destruct (strip_with_split q (strip span)) as (l & r & Hs & Hl & Hr).
  exists ws1, ws2, (length l), (length r). cbv zeta.
  rewrite <- (forallb_is_dquote l Hl), <- (forallb_is_dquote r Hr), <- Hs.
  split; [exact Hspan|]. split; [exact Hws1|]. split; [exact Hws2|].
  split; [|split].
  - intros c Hc. by apply (strip_with_ends isspace span).
  - intros H. by pose proof (strip_with_ends q _ _ (or_introl H)).
  - intros H. by pose proof (strip_with_ends q _ _ (or_intror H)).
Qed.

Lemma trim_span_all_quotes_witness :
  exists ws1 ws2 n m,
    let span := litq " ''//cdn/a.m4a?mime_type=audio_mp4'' " in
    let core := replicate n dquote ++ trim_span span ++ replicate m dquote in
    span = ws1 ++ core ++ ws2 /\
    forallb isspace ws1 = true /\ forallb isspace ws2 = true /\
    (forall c, head core = Some c \/ last core = Some c -> isspace c = false) /\
    head (trim_span span) <> Some dquote /\
    last (trim_span span) <> Some dquote.
Proof.
  exact (trim_span_all_quotes (litq " ''//cdn/a.m4a?mime_type=audio_mp4'' ")).
Defined.

(** [s.rfind(sub, 0, m)] for a stop [m] inside the string. *)
Lemma rfind_in_unfold (s sub : str) (m : nat) :
  (m <= length s)%nat ->
  rfind_in s sub 0 (Z.of_nat m) =
  if Z.of_nat m <? len sub then -1
  else match last_index (take m s) sub with
       | Some k => Z.of_nat k
       | None => -1
       end.
Proof.
  intros Hm. unfold rfind_in, window_start, window, norm_index, len.
  replace (Z.of_nat m <? 0) with false by (symmetry; apply Z.ltb_ge; lia).
  rewrite Z.min_l by lia. change (0 <? 0) with false. cbv iota.
  rewrite Z.sub_0_r, Nat2Z.id. change (Z.to_nat 0) with 0%nat.
  destruct (_ <? _); [done|]. by destruct (last_index _ sub).
Qed.

(** It returns [-1] or the index of a match that ends at or before [m]. *)
Lemma rfind_in_bound (s sub : str) (m : nat) :
  (m <= length s)%nat ->
  rfind_in s sub 0 (Z.of_nat m) = -1 \/
  0 <= rfind_in s sub 0 (Z.of_nat m) /\
  rfind_in s sub 0 (Z.of_nat m) + len sub <= Z.of_nat m.
Proof.
  intros Hm. rewrite rfind_in_unfold by done.
  destruct (_ <? _); [by left|].
  destruct (last_index _ sub) as [k|] eqn:E; [|by left].
  right. apply last_index_bound in E.
  rewrite length_take in E. unfold len. lia.
Qed.

(** C10.  When the anchor is first matched at index [m] and no comma occurs
    at or after [m], the search of line 37 returns [-1], and the span of
    line 39 is [response_text[start_index:-1]]: it stops one character short
    of the end of the text, so the slice to the end of the text is the span
    followed by the last character of the text.  The function does not
    return at this point: it goes on to trim and decode this span. *)
Theorem url_span_without_comma (response_text : str) (m : nat) :
  first_at response_text anchor m = true ->
  absent_from response_text (lit ",") m = true ->
  let start_index := rfind_in response_text (lit ":") 0 (Z.of_nat m) + 1 in
  find_from response_text (lit ",") (Z.of_nat m) = -1 /\
  url_span response_text (Z.of_nat m) = slice response_text start_index (-1) /\
  (exists c, last response_text = Some c /\
             slice_from response_text start_index =
             url_span response_text (Z.of_nat m) ++ [c]) /\
  extract_track_url response_text =
  try_except (decode_url (trim_span (url_span response_text (Z.of_nat m))))
             (fun _ => Returns Unknown).
Proof.
  intros Hfirst Hcomma start_index.
  pose proof (find_first _ _ _ Hfirst) as Hfind.
  pose proof (find_from_none _ _ _ Hcomma) as Hend.
  assert (Hm : (m + 19 <= length response_text)%nat).
  { unfold first_at in Hfirst. apply andb_true_iff in Hfirst as [Hocc _].
    apply occurs_at_bound in Hocc. exact Hocc. }
  assert (Hspan : url_span response_text (Z.of_nat m)
                  = slice response_text start_index (-1)).
  { unfold url_span. by rewrite Hend. }
  split; [done|]. split; [done|]. split.
  - rewrite Hspan.
    assert (Hstart : 0 <= start_index <= Z.of_nat m).
    { unfold start_index.
      destruct (rfind_in_bound response_text (lit ":") m ltac:(lia)) as [->|[H1 H2]].
      - lia.
      - change (len (lit ":")) with 1 in H2. lia. }
    unfold slice_from, slice, norm_index, len.
    replace (start_index <? 0) with false by (symmetry; apply Z.ltb_ge; lia).
    replace (Z.of_nat (length response_text) <? 0) with false
      by (symmetry; apply Z.ltb_ge; lia).
    change (-1 <? 0) with true. cbv iota.
    rewrite Z.min_id. rewrite !Z.min_l by lia. rewrite Z.max_r by lia.
    set (a := Z.to_nat start_index).
    set (rest := drop a response_text).
    assert (Hlen : length rest = (length response_text - a)%nat)
      by (unfold rest; apply length_drop).
    destruct (proj2 (last_is_Some rest)) as [c Hc].
    { intros E. rewrite E in Hlen. simpl in Hlen. lia. }
    exists c. split.
    + rewrite <- (take_drop a response_text). fold rest.
      rewrite last_app, Hc. done.
    + apply last_Some in Hc as [l' Hl']. rewrite take_ge by lia.
      rewrite Hl'. f_equal. symmetry. apply take_app_length'.
      rewrite Hl', length_app in Hlen. simpl in Hlen. lia.
  - unfold extract_track_url. rewrite Hfind.
    destruct (Z.eqb_spec (Z.of_nat m) (-1)); [lia | done].
Qed.

Lemma url_span_without_comma_witness :
  let response_text := litq "{'url':'//cdn/a.m4a?mime_type=audio_mp4'}" in
  let start_index := rfind_in response_text (lit ":") 0 20 + 1 in
  find_from response_text (lit ",") 20 = -1 /\
  url_span response_text 20 = slice response_text start_index (-1) /\
  (exists c, last response_text = Some c /\
             slice_from response_text start_index = url_span response_text 20 ++ [c]) /\
  extract_track_url response_text =
  try_except (decode_url (trim_span (url_span response_text 20)))
             (fun _ => Returns Unknown).
Proof.
  intros response_text.
  apply (url_span_without_comma response_text 20); vm_compute; reflexivity.
Defined.

(** On that text the last character, the closing brace, is the one left
    out, and the URL comes out whole; on a text that ends with the URL it
    is the last character of the URL that is lost. *)
Example url_span_without_comma_run :
  extract_track_url (litq "{'url':'//cdn/a.m4a?mime_type=audio_mp4'}")
    = Returns (lit "https://cdn/a.m4a?mime_type=audio_mp4") /\
  extract_track_url (litq "url://cdn/a.m4a?mime_type=audio_mp4")
    = Returns (lit "https://cdn/a.m4a?mime_type=audio_mp").
Proof. vm_compute. split; reflexivity. Qed.

(** ** The anchor inside the URL value *)

Section AnchorInside.

Implicit Types (s w sub pre post : str).

(** A match that begins in [pre] cannot run over a character that the
    pattern does not contain. *)
Lemma startswith_cut pre c post sub :
  startswith (pre ++ c :: post) sub = true -> mem c sub = false ->
  startswith pre sub = true.
Proof.
  revert pre. induction sub as [|a sub IH]; intros pre H Hc; [done|].
  simpl in Hc. apply orb_false_iff in Hc as [Hca Hc].
  destruct pre as [|b pre]; simpl in *.
  - apply andb_true_iff in H as [Hab _]. apply N.eqb_eq in Hab as ->.
    by rewrite N.eqb_refl in Hca.
  - apply andb_true_iff in H as [Hab H]. rewrite Hab. simpl. by apply IH.
Qed.

Lemma first_index_app_skip w1 w2 sub k :
  (forall j, (j < length w1)%nat -> startswith (drop j (w1 ++ w2)) sub = false) ->
  first_index w2 sub = Some k ->
  first_index (w1 ++ w2) sub = Some (length w1 + k)%nat.
Proof.
  intros Hskip Hk. apply first_index_bound in Hk as Hb. destruct Hb as [Hb Hs].
  apply first_index_some.
  - by rewrite drop_app_add.
  - intros j Hj. destruct (decide (j < length w1)%nat) as [Hlt|Hge].
    + by apply Hskip.
    + replace j with (length w1 + (j - length w1))%nat by lia.
      rewrite drop_app_add.
      destruct (startswith (drop (j - length w1) w2) sub) eqn:E; [|done].
      assert (Hmin : forall i w, first_index w sub = Some k ->
                (i < k)%nat -> startswith (drop i w) sub = false).
      { clear. intros i w. revert i k. induction w as [|c w IH]; intros i k; simpl.
        - destruct (startswith [] sub); [|done]. intros [= <-]. lia.
        - destruct (startswith (c :: w) sub) eqn:E0; [intros [= <-]; lia|].
          destruct (first_index w sub) as [k'|] eqn:E1; [|done]. simpl.
          intros [= <-] Hi. destruct i as [|i]; [done|]. simpl.
          apply (IH i k'); [done | lia]. }
      rewrite (Hmin (j - length w1)%nat w2) in E; [done | done | lia].
  - rewrite length_app. lia.
Qed.

Lemma absent_no_straddle pre c post sub j :
  absent_from pre sub 0 = true -> mem c sub = false -> (j <= length pre)%nat ->
  startswith (drop j (pre ++ c :: post)) sub = false.
Proof.
  intros Habs Hc Hj. rewrite drop_app_le by done.
  destruct (startswith (drop j pre ++ c :: post) sub) eqn:E; [|done].
  apply startswith_cut in E; [|done].
  pose proof (startswith_length _ _ E) as Hl. rewrite length_drop in Hl.
  assert (occurs_at pre sub j = true) as Hocc.
  { unfold occurs_at. rewrite E, andb_true_r. apply Nat.leb_le. lia. }
  rewrite (proj1 (absent_from_spec _ _ _) Habs j) in Hocc; [done | lia].
Qed.

End AnchorInside.

(** C4, as stated, fails.  With the anchor after the comma that closes the
    URL value, the span of line 39 runs from the colon before the value up
    to the first comma after the anchor; it contains the closing quote of
    the value, on which [json.loads] raises, and the function returns
    [Unknown]. *)
Lemma extract_track_url_anchor_after_value :
  extract_track_url (litq "{'url':'//example.cdn/a.mp4','q=mime_type=audio_mp4',}")
    = Returns Unknown /\
  extract_track_url (litq "{'url':'//example.cdn/a.mp4','q=mime_type=audio_mp4',}")
    <> Returns (lit "https://example.cdn/a.mp4").
Proof. vm_compute. split; [reflexivity | discriminate]. Qed.

(** C4, amended.  For every text before the field that does not contain
    the anchor, and every text after it, [extract_track_url] applied to a
    blob in which the anchor lies inside the URL value, between the colon
    before the value and the comma after it, returns the value with
    [https:] in front; the value includes the anchor. *)
Theorem extract_track_url_anchor_inside (pre post : str) :
  absent_from pre anchor 0 = true ->
  extract_track_url (pre ++ url_field ++ post)
  = Returns (lit "https://example.cdn/a.mp4?mime_type=audio_mp4").
Proof.
  intros Habs. set (text := pre ++ url_field ++ post).
  assert (Hlen : length text = (length pre + 44 + length post)%nat).
  { unfold text. rewrite !length_app. change (length url_field) with 44%nat. lia. }
  assert (Hfind : find text anchor = Z.of_nat (length pre + 23)).
  { unfold find. change 0 with (Z.of_nat 0). rewrite find_from_unfold.
    destruct (Z.ltb_spec (len text - Z.of_nat 0) (len anchor)) as [Hlt|_].
    { unfold len in Hlt. change (length anchor) with 19%nat in Hlt. lia. }
    rewrite drop_0. unfold text.
    rewrite (first_index_app_skip _ _ _ 23); [f_equal; lia | | vm_compute; reflexivity].
    intros j Hj. change (url_field ++ post) with (dquote :: (tail url_field ++ post)).
    apply absent_no_straddle; [done | vm_compute; reflexivity | lia]. }
  assert (Hcolon : rfind_in text (lit ":") 0 (Z.of_nat (length pre + 23))
                   = Z.of_nat (length pre + 1)).
  { rewrite rfind_in_unfold by lia.
    destruct (Z.ltb_spec (Z.of_nat (length pre + 23)) (len (lit ":"))) as [Hlt|_].
    { change (len (lit ":")) with 1 in Hlt. lia. }
    unfold text. rewrite take_app_add.
    rewrite (last_index_app _ _ _ 1); [done | vm_compute; reflexivity]. }
  assert (Hcomma : find_from text (lit ",") (Z.of_nat (length pre + 23))
                   = Z.of_nat (length pre + 43)).
  { rewrite find_from_unfold.
    destruct (Z.ltb_spec (len text - Z.of_nat (length pre + 23)) (len (lit ","))) as [Hlt|_].
    { unfold len in Hlt. change (length (lit ",")) with 1%nat in Hlt. lia. }
    unfold text. rewrite drop_app_add.
    replace (first_index (drop 23 (url_field ++ post)) (lit ",")) with (Some 20%nat)
      by (vm_compute; reflexivity).
    lia. }
  assert (Hspan : url_span text (Z.of_nat (length pre + 23))
                  = litq "'//example.cdn/a.mp4?mime_type=audio_mp4'").
  { unfold url_span. rewrite Hcolon, Hcomma.
    replace (Z.of_nat (length pre + 1) + 1) with (Z.of_nat (length pre + 2)) by lia.
    rewrite slice_inside by lia.
    replace (length pre + 43 - (length pre + 2))%nat with 41%nat by lia.
    unfold text. rewrite drop_app_add. vm_compute. reflexivity. }
  unfold extract_track_url. rewrite Hfind.
  destruct (Z.eqb_spec (Z.of_nat (length pre + 23)) (-1)); [lia|].
  rewrite Hspan. vm_compute. reflexivity.
Qed.

Lemma extract_track_url_anchor_inside_witness :
  extract_track_url (litq "{'trackName':'Song','url'" ++ url_field ++ litq "'n':1}")
  = Returns (lit "https://example.cdn/a.mp4?mime_type=audio_mp4").
Proof.
  apply extract_track_url_anchor_inside. vm_compute. reflexivity.
Defined.

(** ** The result of [extract_track_url] always holds part of the anchor

    Both scans of lines 36 and 37 start at the anchor, so the span holds
    the anchor, or at least all but its last character; trimming and
    decoding keep the underscore of [mime_type].  A result therefore is
    [Unknown] or has an underscore in it. *)

Lemma push_inv c r d rest :
  Json.push c r = Returns (d, rest) ->
  exists d', r = Returns (d', rest) /\ d = c :: d'.
Proof.
  unfold Json.push. destruct r as [[d' rest']|e]; [|done].
  intros [= <- <-]. eauto.
Qed.

Lemma hex4_digits a b c d u :
  Json.hex4 a b c d = Some u ->
  a <> underscore /\ b <> underscore /\ c <> underscore /\ d <> underscore.
Proof.
  intros H. repeat split; intros ->; revert H; unfold Json.hex4;
    repeat (match goal with |- context [Json.hexval ?x] =>
              destruct (Json.hexval x) eqn:?; try done end);
    match goal with H : Json.hexval underscore = Some _ |- _ =>
      vm_compute in H; discriminate H end.
Qed.

Lemma scanstring_keeps_underscore (n : nat) :
  forall w d rest,
    (length w <= n)%nat ->
    Json.scanstring w = Returns (d, rest) ->
    In underscore w -> In underscore d \/ In underscore rest.
Proof.
  induction n as [|n IH]; intros w d rest Hlen Hs Hin.
  { destruct w; [inversion Hin | simpl in Hlen; lia]. }
  destruct w as [|a w1]; [inversion Hin|]. simpl in Hlen.
  cbn [Json.scanstring] in Hs.
  destruct (a =? dquote)%N eqn:Ea.
  { injection Hs as <- <-. destruct Hin as [->|Hin]; [by vm_compute in Ea | by right]. }
  destruct (a =? backslash)%N eqn:Eb.
  - assert (Ha : a <> underscore) by (intros ->; by vm_compute in Eb).
    destruct Hin as [?|Hin]; [done|].
    destruct w1 as [|e w2]; [done|]. simpl in Hlen.
    destruct (e =? 117)%N eqn:Eu.
    + destruct Hin as [->|Hin]; [by vm_compute in Eu|].
      destruct w2 as [|h1 [|h2 [|h3 [|h4 w3]]]]; try done. simpl in Hlen.
      destruct (Json.hex4 h1 h2 h3 h4) as [uni|] eqn:Eh; [|done].
      destruct (hex4_digits _ _ _ _ _ Eh) as (H1 & H2 & H3 & H4).
      assert (Hin3 : In underscore w3).
      { destruct Hin as [?|[?|[?|[?|?]]]]; done. }
      assert (Hplain : forall x, Json.push x (Json.scanstring w3) = Returns (d, rest) ->
                                 In underscore d \/ In underscore rest).
      { intros x Hx. apply push_inv in Hx as (d' & Hd' & ->).
        destruct (IH w3 d' rest ltac:(lia) Hd' Hin3) as [?|?];
          [left; by right | by right]. }
      destruct (Json.is_high_surrogate uni); [|by eapply Hplain].
      destruct w3 as [|b [|u [|l1 [|l2 [|l3 [|l4 w4]]]]]]; try by eapply Hplain.
      destruct ((b =? backslash) && (u =? 117))%N eqn:Ebu; [|by eapply Hplain].
      destruct (Json.hex4 l1 l2 l3 l4) as [uni2|] eqn:El; [|done].
      destruct (Json.is_low_surrogate uni2); [|by eapply Hplain].
      apply andb_true_iff in Ebu as [Eb' Eu'].
      destruct (hex4_digits _ _ _ _ _ El) as (L1 & L2 & L3 & L4).
      assert (Hin4 : In underscore w4).
      { destruct Hin3 as [->|[->|[?|[?|[?|[?|?]]]]]]; done. }
      apply push_inv in Hs as (d' & Hd' & ->). simpl in Hlen.
      destruct (IH w4 d' rest ltac:(lia) Hd' Hin4) as [?|?];
        [left; by right | by right].
    + destruct (Json.simple_escape e) as [c'|] eqn:Ee; [|done].
      destruct Hin as [->|Hin]; [by vm_compute in Ee|].
      apply push_inv in Hs as (d' & Hd' & ->).
      destruct (IH w2 d' rest ltac:(lia) Hd' Hin) as [?|?];
        [left; by right | by right].
  - destruct (a <=? 31)%N; [done|].
    apply push_inv in Hs as (d' & Hd' & ->).
    destruct Hin as [->|Hin]; [left; by left|].
    destruct (IH w1 d' rest ltac:(lia) Hd' Hin) as [?|?];
      [left; by right | by right].
Qed.

Lemma loads_quoted_keeps_underscore (x d : str) :
  Json.loads_quoted x = Returns d -> In underscore x -> In underscore d.
Proof.
  unfold Json.loads_quoted.
  destruct (Json.scanstring (x ++ [dquote])) as [[d' rest]|e] eqn:Es; [|done].
  destruct (forallb Json.json_ws rest) eqn:Ews; [|done].
  intros [= <-] Hin.
  destruct (scanstring_keeps_underscore _ _ _ _ (Nat.le_refl _) Es) as [?|Hrest];
    [apply in_or_app; by left | done |].
  rewrite forallb_forall in Ews. by specialize (Ews _ Hrest).
Qed.

Lemma strip_with_keeps (p : char -> bool) (s : str) (c : char) :
  In c s -> p c = false -> In c (strip_with p s).
Proof.
  intros Hin Hp. destruct (strip_with_split p s) as (l & r & Hs & Hl & Hr).
  rewrite Hs in Hin. rewrite forallb_forall in Hl, Hr.
  apply in_app_or in Hin as [Hin|Hin]; [apply Hl in Hin; congruence|].
  apply in_app_or in Hin as [Hin|Hin]; [done | apply Hr in Hin; congruence].
Qed.

Lemma trim_span_keeps_underscore (span : str) :
  In underscore span -> In underscore (trim_span span).
Proof.
  intros H. unfold trim_span, strip_chars, strip.
  apply strip_with_keeps; [|done]. by apply strip_with_keeps.
Qed.

Lemma window_lookup_in (text : list char) (a hi i : nat) (c : char) :
  (a <= i < hi)%nat -> text !! i = Some c -> In c (take (hi - a) (drop a text)).
Proof.
  intros Hi Hc. apply list_elem_of_In, (list_elem_of_lookup_2 _ (i - a)).
  rewrite lookup_take_lt by lia. rewrite lookup_drop.
  by replace (a + (i - a))%nat with i by lia.
Qed.

Lemma slice_minus_one (s : str) (a : nat) :
  (a <= length s)%nat ->
  slice s (Z.of_nat a) (-1) = take (length s - 1 - a) (drop a s).
Proof.
  intros Ha. unfold slice, norm_index, len.
  replace (Z.of_nat a <? 0) with false by (symmetry; apply Z.ltb_ge; lia).
  change (-1 <? 0) with true. cbv iota.
  rewrite Z.min_l by lia. rewrite Nat2Z.id. f_equal. lia.
Qed.

Lemma occurs_at_lookup (s sub : list char) (k i : nat) :
  occurs_at s sub k = true -> (i < length sub)%nat -> s !! (k + i)%nat = sub !! i.
Proof.
  intros (pre & post & -> & <-)%occurs_at_spec Hi.
  rewrite lookup_app_r by lia.
  replace (length pre + i - length pre)%nat with i by lia.
  by rewrite lookup_app_l.
Qed.

Lemma url_span_has_underscore (text : list char) (m : nat) :
  occurs_at text anchor m = true -> In underscore (url_span text (Z.of_nat m)).
Proof.
  intros Hocc.
  pose proof (occurs_at_bound _ _ _ Hocc) as Hm.
  change (length anchor) with 19%nat in Hm.
  assert (Hu : text !! (m + 4)%nat = Some underscore).
  { by rewrite (occurs_at_lookup _ _ _ _ Hocc) by (vm_compute; lia). }
  unfold url_span.
  set (start_index := rfind_in text (lit ":") 0 (Z.of_nat m) + 1).
  assert (Hstart : 0 <= start_index <= Z.of_nat m).
  { unfold start_index.
    destruct (rfind_in_bound text (lit ":") m ltac:(lia)) as [->|[H1 H2]].
    - lia.
    - change (len (lit ":")) with 1 in H2. lia. }
  replace start_index with (Z.of_nat (Z.to_nat start_index)) by lia.
  set (a := Z.to_nat start_index). assert (Ha : (a <= m)%nat) by lia.
  destruct (Z.eq_dec (find_from text (lit ",") (Z.of_nat m)) (-1)) as [->|Hfound].
  - rewrite slice_minus_one by lia.
    apply (window_lookup_in _ _ _ (m + 4)); [lia | done].
  - destruct (find_from_found _ _ _ _ eq_refl Hfound) as (k & -> & Hk & Hcomma).
    pose proof (occurs_at_bound _ _ _ Hcomma) as Hkb.
    assert (Hk5 : (m + 5 <= k)%nat).
    { destruct (decide (m + 5 <= k)%nat) as [|Hlt]; [done|]. exfalso.
      pose proof (occurs_at_lookup _ _ k 0 Hcomma ltac:(vm_compute; lia)) as Hc.
      rewrite Nat.add_0_r in Hc.
      replace k with (m + (k - m))%nat in Hc by lia.
      rewrite (occurs_at_lookup _ _ m (k - m) Hocc) in Hc
        by (change (length anchor) with 19%nat; lia).
      assert (Hcases : (k - m = 0 \/ k - m = 1 \/ k - m = 2 \/ k - m = 3 \/ k - m = 4)%nat)
        by lia.
      destruct Hcases as [E|[E|[E|[E|E]]]]; rewrite E in Hc; vm_compute in Hc;
        discriminate Hc. }
    rewrite slice_inside by lia.
    apply (window_lookup_in _ _ _ (m + 4)); [lia | done].
Qed.

(** Whatever the text, the result is the sentinel or holds an underscore. *)
Lemma extract_track_url_result (response_text v : str) :
  extract_track_url response_text = Returns v ->
  v = Unknown \/ In underscore v.
Proof.
  unfold extract_track_url, try_except.
  destruct (Z.eqb_spec (find response_text anchor) (-1)) as [|Hfound].
  { intros [= <-]. by left. }
  destruct (find_from_found response_text anchor 0 _ eq_refl Hfound)
    as (m & Hm & _ & Hocc).
  change (find response_text anchor = Z.of_nat m) in Hm. rewrite Hm.
  pose proof (trim_span_keeps_underscore _ (url_span_has_underscore _ _ Hocc)) as Hin.
  unfold decode_url, mbind, outcome_bind.
  destruct (Json.loads_quoted _) as [u|e] eqn:Ed; unfold obind.
  - pose proof (loads_quoted_keeps_underscore _ _ Ed Hin) as Hu.
    destruct (startswith u (lit "//")); intros [= <-]; right; [|done].
    cbn. do 6 right. exact Hu.
  - intros [= <-]. by left.
Qed.

(** So no text at all makes the function return the URL without the
    anchor that C4 names. *)
Corollary extract_track_url_never_bare_url (response_text : str) :
  extract_track_url response_text <> Returns (lit "https://example.cdn/a.mp4").
Proof.
  intros H. apply extract_track_url_result in H as [H|H].
  - vm_compute in H. discriminate H.
  - vm_compute in H. repeat (destruct H as [H|H]; [discriminate H|]). done.
Qed.

(** ** [extract_and_log_data] *)

(** C1, as stated, fails.  On a page whose cover URL holds an escape that
    JSON does not know (backslash, x), the track name and the artist name
    resolve and [json.loads] raises on the cover URL; the handler of line 67
    then returns the empty dict: [cover_url] is not set to [Unknown], and
    the three other fields are not in the result either. *)
Lemma extract_and_log_data_cover_decode_failure :
  let page :=
    litq "{'trackName':'Song','artistName':'Artist','coverURL':'https:\x','url':'//cdn/a.m4a?mime_type=audio_mp4','n':1}" in
  extract_value page (litq "'trackName':'") (litq "','") = Returns (lit "Song") /\
  extract_value page (litq "'artistName':'") (litq "','") = Returns (lit "Artist") /\
  extract_value page (litq "'coverURL':'") (litq "','") = Returns (lit "https:\x") /\
  Json.loads_quoted (lit "https:\x") = Raises JSONDecodeError /\
  extract_track_url page = Returns (lit "https://cdn/a.m4a?mime_type=audio_mp4") /\
  extract_and_log_data page = Returns ∅ /\
  extract_and_log_data page <>
    Returns (track_record (lit "Song") (lit "Artist") Unknown
               (lit "https://cdn/a.m4a?mime_type=audio_mp4")).
Proof.
  intros page.
  assert (H : extract_and_log_data page = Returns ∅) by (vm_compute; reflexivity).
  repeat split; try (vm_compute; reflexivity).
  rewrite H. intros E. apply (f_equal (fun r => match r with
                                              | Returns d => d !! "track_name"
                                              | Raises _ => None
                                              end)) in E.
  unfold track_record in E. rewrite lookup_empty, lookup_insert_eq in E. done.
Qed.

(** C1, amended.  [extract_and_log_data] never raises.  The track name,
    the artist name, the cover span and the track URL always resolve, to a
    value or to the sentinel.  When [json.loads] accepts the quoted cover
    span, the result is the dict of the four fields, with the decoded cover
    URL; when it raises, the result is the empty dict. *)
Theorem extract_and_log_data_cases (response_text : str) :
  exists track_name artist_name cover_span track_url,
    extract_value response_text (litq "'trackName':'") (litq "','") = Returns track_name /\
    extract_value response_text (litq "'artistName':'") (litq "','") = Returns artist_name /\
    extract_value response_text (litq "'coverURL':'") (litq "','") = Returns cover_span /\
    extract_track_url response_text = Returns track_url /\
    extract_and_log_data response_text =
      Returns (match Json.loads_quoted cover_span with
               | Returns cover_url => track_record track_name artist_name cover_url track_url
               | Raises _ => ∅
               end).
Proof.
  destruct (extract_value_returns response_text (litq "'trackName':'") (litq "','"))
    as [track_name Hn].
  destruct (extract_value_returns response_text (litq "'artistName':'") (litq "','"))
    as [artist_name Ha].
  destruct (extract_value_returns response_text (litq "'coverURL':'") (litq "','"))
    as [cover_span Hc].
  destruct (extract_track_url_returns response_text) as [track_url Hu].
  exists track_name, artist_name, cover_span, track_url.
  repeat (split; [done|]).
  unfold extract_and_log_data, mbind, outcome_bind.
  rewrite Hn, Ha, Hc, Hu. unfold obind at 1 2 3.
  by destruct (Json.loads_quoted cover_span).
Qed.


(** ** [download_and_set_metadata] *)

Example download_ok :
  download_and_set_metadata (world 200) (song (lit "https://img/c.jpg")) ∅
  = (Returns (Some audio_data, Some (lit "Song - Artist.m4a")), ∅).
Proof. vm_compute. reflexivity. Qed.

(** *** The audio request *)

Lemma download_audio_spec (E : env) (track_url : str) (r : response) (fs : files) :
  network E track_url = Returns r ->
  download_audio E track_url fs
  = (Returns (if accepted r then Some (content r) else None), fs).
Proof.
  intros H. unfold download_audio, session_get, lift, mbind, io_bind, accepted.
  rewrite H. destruct (status_code r =? 200); [|done]. cbn [negb andb].
  by destruct (contains _ (lit "audio/mp4")), (contains _ (lit "video/mp4")).
Qed.

(** C5, as stated, fails: a response with status 206 and content type
    [audio/mp4] has a 2xx status and a matching content type, and the
    function rejects it, in a world where status 200 gives the tagged
    file. *)
Lemma audio_status_206_rejected :
  200 <= status_code (mp4_response 206) < 300 /\
  headers (mp4_response 206) !! "Content-Type" = Some (lit "audio/mp4") /\
  network (world 206) (lit "https://cdn/a.m4a?mime_type=audio_mp4") = Returns (mp4_response 206) /\
  download_audio (world 206) (lit "https://cdn/a.m4a?mime_type=audio_mp4") ∅ = (Returns None, ∅) /\
  download_and_set_metadata (world 206) (song (lit "https://img/c.jpg")) ∅
  = (Returns (None, None), ∅).
Proof. vm_compute. repeat split; congruence. Qed.

(** C5, amended.  The audio download succeeds if and only if the response
    has status 200, no other, and its [Content-Type] header contains
    [audio/mp4] or [video/mp4]; otherwise the function returns
    [(None, None)] and leaves the file system as it was: no temporary file,
    no tagging. *)
Theorem audio_download_gate (E : env) (track_name artist_name cover_url track_url : str)
    (r : response) (fs : files) :
  network E track_url = Returns r ->
  let content_type := default [] (headers r !! "Content-Type") in
  let track_data := track_record track_name artist_name cover_url track_url in
  (download_audio E track_url fs = (Returns (Some (content r)), fs) <->
   status_code r = 200 /\
   (contains content_type (lit "audio/mp4") = true \/
    contains content_type (lit "video/mp4") = true)) /\
  (status_code r <> 200 \/
   (contains content_type (lit "audio/mp4") = false /\
    contains content_type (lit "video/mp4") = false) ->
   download_audio E track_url fs = (Returns None, fs) /\
   download_and_set_metadata E track_data fs = (Returns (None, None), fs)).
Proof.
  intros H content_type track_data.
  pose proof (download_audio_spec E track_url r fs H) as Ha.
  assert (Hacc : accepted r = true <->
            status_code r = 200 /\
            (contains content_type (lit "audio/mp4") = true \/
             contains content_type (lit "video/mp4") = true)).
  { unfold accepted. fold content_type.
    rewrite andb_true_iff, orb_true_iff, Z.eqb_eq. done. }
  split.
  - rewrite Ha, <- Hacc. destruct (accepted r); split; congruence.
  - intros Hrej.
    assert (Hno : accepted r = false).
    { apply not_true_is_false. intros Eacc.
      apply Hacc in Eacc as [Hs Hc]. destruct Hrej as [?|[? ?]]; [done|].
      destruct Hc; congruence. }
    rewrite Hno in Ha. split; [done|].
    unfold download_and_set_metadata, try_io, track_data, track_record, getitem.
    unfold mbind at 1 2 3 4 5. unfold io_bind.
    rewrite lookup_insert_ne, lookup_insert_ne, lookup_insert_ne, lookup_insert_eq by done.
    rewrite lookup_insert_eq.
    rewrite lookup_insert_ne, lookup_insert_eq by done.
    rewrite lookup_insert_ne, lookup_insert_ne, lookup_insert_eq by done.
    unfold mret at 1 2 3 4. unfold io_ret. by rewrite Ha.
Qed.

Lemma audio_download_gate_witness :
  (download_audio (world 200) (lit "https://cdn/a.m4a?mime_type=audio_mp4") ∅ = (Returns (Some audio_data), ∅) <->
   200 = 200 /\
   (contains (lit "audio/mp4") (lit "audio/mp4") = true \/
    contains (lit "audio/mp4") (lit "video/mp4") = true)) /\
  download_and_set_metadata (world 404) (song (lit "https://img/c.jpg")) ∅
  = (Returns (None, None), ∅).
Proof.
  split.
  - apply (audio_download_gate (world 200) (lit "Song") (lit "Artist")
             (lit "https://img/c.jpg") (lit "https://cdn/a.m4a?mime_type=audio_mp4") (mp4_response 200) ∅).
    vm_compute. reflexivity.
  - apply (audio_download_gate (world 404) (lit "Song") (lit "Artist")
             (lit "https://img/c.jpg") (lit "https://cdn/a.m4a?mime_type=audio_mp4") (mp4_response 404) ∅).
    + vm_compute. reflexivity.
    + left. vm_compute. discriminate.
Defined.

(** *** The temporary file *)

(** One step of a sequence of calls, and the calls on a file system that
    holds the file. *)
Lemma io_bind_run {A B} (m : io A) (k : A -> io B) (fs : files) :
  (x ← m ; k x) fs =
  match m fs with
  | (Returns a, fs') => k a fs'
  | (Raises e, fs') => (Raises e, fs')
  end.
Proof. reflexivity. Qed.

Lemma MP4_run (E : env) name data (fs : files) :
  MP4 E name (<[name := data]> fs) = (mp4_load E data, <[name := data]> fs).
Proof. unfold MP4. by rewrite lookup_insert_eq. Qed.

Lemma save_run (E : env) name tags data data' (fs : files) :
  mp4_save E data tags = Returns data' ->
  save E name tags (<[name := data]> fs) = (Returns tt, <[name := data']> fs).
Proof.
  intros H. unfold save. rewrite lookup_insert_eq, H. by rewrite insert_insert_eq.
Qed.

Lemma read_file_run name data (fs : files) :
  read_file name (<[name := data]> fs) = (Returns data, <[name := data]> fs).
Proof. unfold read_file. by rewrite lookup_insert_eq. Qed.

Lemma unlink_run name data (fs : files) :
  unlink name (<[name := data]> fs) = (Returns tt, delete name fs).
Proof. unfold unlink. by rewrite lookup_insert_eq, delete_insert_eq. Qed.

Section TempFile.

Variables (E : env) (track_name artist_name cover_url track_url : str).
Variables (audio cover : response) (fs : files).

Let track_data := track_record track_name artist_name cover_url track_url.

Hypothesis audio_answer : network E track_url = Returns audio.
Hypothesis audio_accepted : accepted audio = true.

(** The function up to the cover request: the four fields are read, the
    audio is fetched and written to the temporary file. *)
Lemma download_prefix (k : str -> str -> str -> string -> io (option bytes * option str)) :
  (track_url ← getitem track_data "track_url" ;
   track_name ← getitem track_data "track_name" ;
   artist_name ← getitem track_data "artist_name" ;
   cover_url ← getitem track_data "cover_url" ;
   audio_content ← download_audio E track_url ;
   match audio_content with
   | None => mret (None, None)
   | Some audio_content =>
       temp_audio ← write_temp_file E audio_content ;
       k track_name artist_name cover_url temp_audio
   end) fs
  = k track_name artist_name cover_url (temp_name E)
      (<[temp_name E := content audio]> fs).
Proof.
  unfold track_data, track_record, getitem.
  unfold mbind at 1 2 3 4 5. unfold io_bind.
  rewrite lookup_insert_ne, lookup_insert_ne, lookup_insert_ne, lookup_insert_eq by done.
  rewrite lookup_insert_eq.
  rewrite lookup_insert_ne, lookup_insert_eq by done.
  rewrite lookup_insert_ne, lookup_insert_ne, lookup_insert_eq by done.
  unfold mret at 1 2 3 4. unfold io_ret.
  rewrite (download_audio_spec E track_url audio fs audio_answer), audio_accepted.
  unfold mbind, io_bind, write_temp_file. done.
Qed.

(** X12.  The three exits that lines 113, 122 and 135 guard: the cover
    answers with a status other than 200; the MP4 library rejects the file;
    the file is tagged and read back.  On each of them the temporary file
    is gone when the function returns. *)
Lemma temp_file_released :
  network E cover_url = Returns cover ->
  (status_code cover <> 200 \/
   (exists e, mp4_load E (content audio) = Raises e) \/
   (exists tags data, mp4_load E (content audio) = Returns tags /\
      mp4_save E (content audio)
        (set_tags tags track_name artist_name (content cover)) = Returns data)) ->
  (download_and_set_metadata E track_data fs).2 = delete (temp_name E) fs.
Proof.
  intros Hcover Hpath. unfold download_and_set_metadata, try_io.
  rewrite (download_prefix (fun track_name artist_name cover_url temp_audio => _)).
  unfold session_get, lift, mbind at 1. unfold io_bind at 1. rewrite Hcover.
  destruct (Z.eqb_spec (status_code cover) 200) as [H200|Hne]; cbn [negb].
  - rewrite io_bind_run. unfold attempt. rewrite MP4_run.
    destruct Hpath as [?|[[e He]|(tags & data & Hl & Hs)]]; [done| |].
    + rewrite He, io_bind_run, unlink_run. done.
    + rewrite Hl, io_bind_run, (save_run _ _ _ _ _ _ Hs).
      rewrite io_bind_run, read_file_run, io_bind_run, unlink_run. done.
  - rewrite io_bind_run, unlink_run. done.
Qed.

(** The exit through the handler of line 140, taken when the cover request
    raises: the function returns [(None, None)] and the temporary file is
    still there, with the audio in it. *)
Lemma temp_file_left_by_handler (e : exc) :
  network E cover_url = Raises e ->
  download_and_set_metadata E track_data fs
  = (Returns (None, None), <[temp_name E := content audio]> fs).
Proof.
  intros Hcover. unfold download_and_set_metadata, try_io.
  rewrite (download_prefix (fun track_name artist_name cover_url temp_audio => _)).
  unfold session_get, lift, mbind at 1. unfold io_bind at 1. by rewrite Hcover.
Qed.

(** X13.  The successful run: the output buffer is the content that the
    MP4 library wrote for the tags of the file with the three atoms set,
    the file name is made of the track name and the artist name, and the
    temporary file is removed. *)
Lemma download_tagged (tags : gmap string tag_value) (data : bytes) :
  network E cover_url = Returns cover ->
  status_code cover = 200 ->
  mp4_load E (content audio) = Returns tags ->
  mp4_save E (content audio)
    (set_tags tags track_name artist_name (content cover)) = Returns data ->
  download_and_set_metadata E track_data fs
  = (Returns (Some data, Some (track_name ++ lit " - " ++ artist_name ++ lit ".m4a")),
     delete (temp_name E) fs).
Proof.
  intros Hcover H200 Hl Hs. unfold download_and_set_metadata, try_io.
  rewrite (download_prefix (fun track_name artist_name cover_url temp_audio => _)).
  unfold session_get, lift, mbind at 1. unfold io_bind at 1. rewrite Hcover.
  rewrite H200. change (negb (200 =? 200)) with false. cbv iota.
  rewrite io_bind_run. unfold attempt. rewrite MP4_run, Hl.
  rewrite io_bind_run, (save_run _ _ _ _ _ _ Hs).
  rewrite io_bind_run, read_file_run, io_bind_run, unlink_run. done.
Qed.

End TempFile.

(** *** The tags

    What the bytes of the tagged file are, and what the MP4 library reads
    from them again, is the library's doing; the program's part is the tag
    dictionary it hands to [save]. *)

(** X15.  After the three assignments of lines 125-127 the title atom
    holds the track name, the artist atom the artist name and the cover
    atom a single JPEG image with the cover data, whatever the file had
    there; every other atom of the file is as it was. *)
Lemma set_tags_atoms (audio : gmap string tag_value)
    (track_name artist_name : str) (cover_data : bytes) :
  let tagged := set_tags audio track_name artist_name cover_data in
  tagged !! "©nam" = Some (TagText track_name) /\
  tagged !! "©ART" = Some (TagText artist_name) /\
  tagged !! "covr" = Some (TagCovers [(cover_data, FORMAT_JPEG)]) /\
  (forall atom, atom <> "©nam" -> atom <> "©ART" -> atom <> "covr" ->
                tagged !! atom = audio !! atom).
Proof.
  unfold set_tags. repeat split.
  - by rewrite lookup_insert_ne, lookup_insert_ne, lookup_insert_eq.
  - by rewrite lookup_insert_ne, lookup_insert_eq.
  - by rewrite lookup_insert_eq.
  - intros atom H1 H2 H3. by rewrite !lookup_insert_ne.
Qed.

(** C2.  The page of this run has no cover URL, so the cover URL of the
    record is the sentinel.  The audio request succeeds and the audio is
    written to the temporary file; the cover request raises, for [Unknown]
    is no URL; the handler of line 140 returns [(None, None)] with no
    [os.unlink], and the temporary file is left behind. *)
Lemma temp_file_left_when_cover_request_raises :
  extract_and_log_data
    (litq "{'trackName':'Song','artistName':'Artist','url':'https://cdn/a.m4a?mime_type=audio_mp4','n':1}")
  = Returns (song Unknown) /\
  network (world 200) Unknown = Raises RequestException /\
  download_and_set_metadata (world 200) (song Unknown) ∅
  = (Returns (None, None), {[temp_name (world 200) := audio_data]}) /\
  (download_and_set_metadata (world 200) (song Unknown) ∅).2
    !! temp_name (world 200) = Some audio_data.
Proof. vm_compute. repeat split; reflexivity. Qed.

(** In the same world a cover request that answers, with a status other
    than 200, has the file removed. *)
Example temp_file_removed_when_cover_missing :
  download_and_set_metadata (world 200) (song (lit "https://img/gone.jpg")) ∅
  = (Returns (None, None), ∅).
Proof. vm_compute. reflexivity. Qed.

(** * Further properties of the code *)

(** ** [download_and_set_metadata]: keys, result, files *)

Ltac run_download :=
  unfold download_and_set_metadata, try_io, download_audio, getitem, session_get,
    lift, write_temp_file, unlink, attempt, MP4, save, read_file, raise,
    mbind, io_bind, mret, io_ret.

(** X9.  A record that lacks one of the four keys, as the empty record of a
    failed extraction does, makes the function return [(None, None)] before
    anything is downloaded: the file system is as it was. *)
Theorem download_missing_key (E : env) (track_data : gmap string str) (fs : files) :
  track_data !! "track_url" = None \/ track_data !! "track_name" = None \/
  track_data !! "artist_name" = None \/ track_data !! "cover_url" = None ->
  download_and_set_metadata E track_data fs = (Returns (None, None), fs).
Proof.
  intros H. run_download.
  destruct (track_data !! "track_url") eqn:E1; [|done].
  destruct (track_data !! "track_name") eqn:E2; [|done].
  destruct (track_data !! "artist_name") eqn:E3; [|done].
  destruct (track_data !! "cover_url") eqn:E4; [|done].
  destruct H as [H|[H|[H|H]]]; congruence.
Qed.

Lemma download_missing_key_witness :
  download_and_set_metadata (world 200) ∅ ∅ = (Returns (None, None), ∅).
Proof. apply download_missing_key. left. apply lookup_empty. Defined.

(** X10.  The function never raises, and its result is all or nothing:
    either [(None, None)], or a buffer together with the file name made of
    the track name and the artist name of the record. *)
Theorem download_all_or_nothing (E : env) (track_data : gmap string str) (fs : files) :
  exists r fs',
    download_and_set_metadata E track_data fs = (Returns r, fs') /\
    (r = (None, None) \/
     exists buffer track_name artist_name,
       track_data !! "track_name" = Some track_name /\
       track_data !! "artist_name" = Some artist_name /\
       r = (Some buffer, Some (track_name ++ lit " - " ++ artist_name ++ lit ".m4a"))).
Proof.
  run_download.
  repeat (case_match; simplify_eq); eauto 10.
Qed.

(** X11.  The only file the function creates, rewrites or removes is the
    temporary file: every other file is after the call what it was
    before. *)
Theorem download_touches_only_temp_file (E : env) (track_data : gmap string str)
    (fs : files) (name : string) :
  name <> temp_name E ->
  (download_and_set_metadata E track_data fs).2 !! name = fs !! name.
Proof.
  intros Hname. run_download.
  repeat (case_match; simplify_eq); cbn;
    rewrite ?lookup_delete_ne, ?lookup_insert_ne by done; done.
Qed.

Lemma download_touches_only_temp_file_witness :
  (download_and_set_metadata (world 200) (song (lit "https://img/c.jpg"))
     {["/srv/app.py" := cover_jpeg]}).2 !! "/srv/app.py" = Some cover_jpeg.
Proof.
  rewrite (download_touches_only_temp_file (world 200) _ _ "/srv/app.py").
  - apply lookup_singleton_eq.
  - vm_compute. discriminate.
Defined.

(** X14.  When [audio.save()] raises, the function returns [(None, None)]
    through the handler of line 140, which has no [os.unlink]: the
    temporary file is still there, with whatever the library left in it. *)
Theorem temp_file_left_when_save_raises (E : env)
    (track_name artist_name cover_url track_url : str)
    (audio cover : response) (tags : gmap string tag_value) (e : exc) (fs : files) :
  network E track_url = Returns audio ->
  accepted audio = true ->
  network E cover_url = Returns cover ->
  status_code cover = 200 ->
  mp4_load E (content audio) = Returns tags ->
  mp4_save E (content audio)
    (set_tags tags track_name artist_name (content cover)) = Raises e ->
  exists left_over,
    download_and_set_metadata E
      (track_record track_name artist_name cover_url track_url) fs
    = (Returns (None, None), <[temp_name E := left_over]> fs).
Proof.
  intros Ha Hacc Hc H200 Hl Hs.
  exists (mp4_save_leaves E (content audio)
            (set_tags tags track_name artist_name (content cover))).
  unfold download_and_set_metadata, try_io.
  rewrite (download_prefix E _ _ _ _ audio fs Ha Hacc
             (fun track_name artist_name cover_url temp_audio => _)).
  unfold session_get, lift, mbind at 1. unfold io_bind at 1. rewrite Hc.
  rewrite H200. change (negb (200 =? 200)) with false. cbv iota.
  rewrite io_bind_run. unfold attempt. rewrite MP4_run, Hl.
  rewrite io_bind_run. unfold save. rewrite lookup_insert_eq, Hs.
  by rewrite insert_insert_eq.
Qed.

Lemma temp_file_left_when_save_raises_witness :
  exists left_over,
    download_and_set_metadata world_save_fails (song (lit "https://img/c.jpg")) ∅
    = (Returns (None, None), <[temp_name world_save_fails := left_over]> ∅).
Proof.
  apply (temp_file_left_when_save_raises world_save_fails _ _ _ _
           (mp4_response 200) jpeg_response ∅ MutagenError);
    vm_compute; reflexivity.
Defined.

Lemma temp_file_released_witness :
  (download_and_set_metadata (world 200) (song (lit "https://img/gone.jpg")) ∅).2 = ∅.
Proof.
  rewrite (temp_file_released (world 200) (lit "Song") (lit "Artist")
             (lit "https://img/gone.jpg") (lit "https://cdn/a.m4a?mime_type=audio_mp4")
             (mp4_response 200)
             {| status_code := 404; headers := ∅; content := [] |} ∅).
  - apply delete_empty.
  - vm_compute. reflexivity.
  - vm_compute. reflexivity.
  - vm_compute. reflexivity.
  - left. vm_compute. discriminate.
Defined.

Lemma download_tagged_witness :
  download_and_set_metadata (world 200) (song (lit "https://img/c.jpg")) ∅
  = (Returns (Some audio_data, Some (lit "Song" ++ lit " - " ++ lit "Artist" ++ lit ".m4a")),
     delete (temp_name (world 200)) ∅).
Proof.
  apply (download_tagged (world 200) (lit "Song") (lit "Artist")
           (lit "https://img/c.jpg") (lit "https://cdn/a.m4a?mime_type=audio_mp4")
           (mp4_response 200) jpeg_response ∅ eq_refl eq_refl ∅ audio_data);
    vm_compute; reflexivity.
Defined.

(** ** The tags *)

Lemma set_tags_atoms_witness :
  set_tags {["©alb" := TagText (lit "Album")]} (lit "T") (lit "A") cover_jpeg !! "©alb"
  = Some (TagText (lit "Album")).
Proof.
  rewrite (proj2 (proj2 (proj2 (set_tags_atoms _ (lit "T") (lit "A") cover_jpeg))) "©alb")
    by done.
  apply lookup_singleton_eq.
Defined.

(** X16.  The three assignments replace what the file had under the three
    atoms: tagging tags that were tagged before gives the same as tagging
    the original ones, so the result does not depend on earlier titles,
    artists or covers. *)
Theorem set_tags_overrides (audio : gmap string tag_value)
    (t1 a1 t2 a2 : str) (c1 c2 : bytes) :
  set_tags (set_tags audio t1 a1 c1) t2 a2 c2 = set_tags audio t2 a2 c2.
Proof.
  unfold set_tags. apply map_eq. intros atom.
  destruct (decide (atom = "covr")) as [->|?];
    [by rewrite !lookup_insert_eq|].
  destruct (decide (atom = "©ART")) as [->|?];
    [by rewrite !(lookup_insert_ne _ "covr"), !lookup_insert_eq by done|].
  destruct (decide (atom = "©nam")) as [->|?].
  - by rewrite !(lookup_insert_ne _ "covr"), !(lookup_insert_ne _ "©ART"),
      !lookup_insert_eq by done.
  - by rewrite !lookup_insert_ne by done.
Qed.

(** ** [fetch_and_process] and the route *)

(** The file name of line 138 is never the empty string. *)
Lemma filename_not_empty (track_name artist_name : str) :
  exists c name, track_name ++ lit " - " ++ artist_name ++ lit ".m4a" = c :: name.
Proof. destruct track_name; simpl; eauto. Qed.

Lemma download_result_pair (E : env) (track_data : gmap string str) (fs : files) :
  exists r fs',
    download_and_set_metadata E track_data fs = (Returns r, fs') /\
    (r = (None, None) \/ exists buffer c name, r = (Some buffer, Some (c :: name))).
Proof.
  run_download.
  repeat (case_match; simplify_eq); eauto 10.
  match goal with |- context [?t ++ lit " - " ++ ?a ++ lit ".m4a"] =>
    destruct (filename_not_empty t a) as (c & name & ->) end.
  eauto 10.
Qed.

Lemma extract_and_log_data_run (response_text : str) :
  exists d, extract_and_log_data response_text = Returns d.
Proof.
  unfold extract_and_log_data, try_except.
  destruct (_ ≫= _); eauto.
Qed.

Section TransportFacts.

Variables (E : env) (text_of : response -> str).

(** X17.  When the page request raises, or answers with a status other
    than 200, [fetch_and_process] returns [(None, None)]: nothing is
    extracted, nothing downloaded, no file touched. *)
Theorem fetch_page_failure (url : str) (fs : files) :
  (exists e, network E url = Raises e) \/
  (exists r, network E url = Returns r /\ status_code r <> 200) ->
  fetch_and_process E text_of url fs = (Returns (None, None), fs).
Proof.
  intros H. unfold fetch_and_process, try_io, session_get, lift.
  rewrite io_bind_run.
  destruct H as [[e ->]|(r & -> & Hr)]; [done|].
  by destruct (Z.eqb_spec (status_code r) 200).
Qed.

(** X18.  When the page answers with status 200, [fetch_and_process] is
    [download_and_set_metadata] on the record that [extract_and_log_data]
    makes of the page text: the same result and the same files. *)
Theorem fetch_composes (url : str) (r : response) (d : gmap string str) (fs : files) :
  network E url = Returns r ->
  status_code r = 200 ->
  extract_and_log_data (text_of r) = Returns d ->
  fetch_and_process E text_of url fs = download_and_set_metadata E d fs.
Proof.
  intros Hr H200 Hd. unfold fetch_and_process, try_io, session_get, lift.
  rewrite io_bind_run, Hr, H200. change (200 =? 200) with true. cbv iota.
  rewrite io_bind_run, Hd, io_bind_run.
  destruct (download_result_pair E d fs) as (res & fs' & -> & [->|(b & c & n & ->)]); done.
Qed.

(** X19.  A page with status 200 whose cover URL [json.loads] rejects fails
    as a whole: the record is empty, the first key is missing, and the
    function returns [(None, None)] with nothing downloaded, whatever the
    other fields of the page are. *)
Theorem fetch_undecodable_cover (url : str) (r : response) (cover_span : str)
    (e : exc) (fs : files) :
  network E url = Returns r ->
  status_code r = 200 ->
  extract_value (text_of r) (litq "'coverURL':'") (litq "','") = Returns cover_span ->
  Json.loads_quoted cover_span = Raises e ->
  fetch_and_process E text_of url fs = (Returns (None, None), fs).
Proof.
  intros Hr H200 Hspan Hdec.
  assert (Hd : extract_and_log_data (text_of r) = Returns ∅).
  { unfold extract_and_log_data, try_except, mbind, outcome_bind.
    destruct (extract_value_returns (text_of r) (litq "'trackName':'") (litq "','"))
      as [tn ->].
    destruct (extract_value_returns (text_of r) (litq "'artistName':'") (litq "','"))
      as [an ->].
    rewrite Hspan. unfold obind at 1 2 3. by rewrite Hdec. }
  unfold fetch_and_process, try_io, session_get, lift.
  rewrite io_bind_run, Hr, H200. change (200 =? 200) with true. cbv iota.
  rewrite io_bind_run, Hd, io_bind_run.
  run_download. by rewrite lookup_empty.
Qed.



End TransportFacts.

Lemma fetch_page_failure_witness :
  fetch_and_process (site 503) page_text (lit "https://music/track") ∅
  = (Returns (None, None), ∅).
Proof.
  apply fetch_page_failure. right.
  exists {| status_code := 503; headers := ∅; content := [] |}.
  split; [vm_compute; reflexivity | vm_compute; discriminate].
Defined.

Lemma fetch_composes_witness :
  fetch_and_process (site 200) page_text (lit "https://music/track") ∅
  = download_and_set_metadata (site 200) (song (lit "https://img/c.jpg")) ∅.
Proof.
  apply (fetch_composes (site 200) page_text _
           {| status_code := 200; headers := ∅; content := [] |});
    vm_compute; reflexivity.
Defined.

Lemma fetch_undecodable_cover_witness :
  fetch_and_process (site 200)
    (fun _ => litq "{'trackName':'Song','coverURL':'https:\x','url':'//cdn/a.m4a?mime_type=audio_mp4',}")
    (lit "https://music/track") ∅
  = (Returns (None, None), ∅).
Proof.
  apply (fetch_undecodable_cover (site 200) _ _
           {| status_code := 200; headers := ∅; content := [] |}
           (lit "https:\x") JSONDecodeError);
    vm_compute; reflexivity.
Defined.



(** ** [extract_value]: more on what it returns *)

Lemma extract_value_between_witness :
  extract_value
    ([] ++ litq "'trackName':'" ++ lit "Song, live" ++ litq "','" ++ litq "artistName':'x'")
    (litq "'trackName':'") (litq "','")
  = Returns (lit "Song, live").
Proof. apply extract_value_between; vm_compute; reflexivity. Defined.

Lemma slice_substring (s : str) (a b : Z) :
  exists pre post, s = pre ++ slice s a b ++ post.
Proof.
  unfold slice.
  set (m := Z.to_nat (norm_index a (len s))).
  set (n := Z.to_nat (norm_index b (len s) - norm_index a (len s))).
  exists (take m s), (drop n (drop m s)).
  by rewrite take_drop, take_drop.
Qed.

(** X2.  What [extract_value] returns is the sentinel or a piece of the
    text, taken as it stands: the function never builds or alters
    characters. *)
Theorem extract_value_substring (text start_marker end_marker : str) :
  exists v, extract_value text start_marker end_marker = Returns v /\
            (v = Unknown \/ exists pre post, text = pre ++ v ++ post).
Proof.
  unfold extract_value, try_except.
  destruct (negb _ && negb _).
  - eexists. split; [done|]. right. apply slice_substring.
  - eauto.
Qed.

Lemma first_index_least (w sub : str) (n i : nat) :
  first_index w sub = Some n -> (i < n)%nat -> startswith (drop i w) sub = false.
Proof.
  revert i n. induction w as [|c w IH]; intros i n; simpl.
  - destruct (startswith [] sub); [|done]. intros [= <-]. lia.
  - destruct (startswith (c :: w) sub) eqn:E0; [intros [= <-]; lia|].
    destruct (first_index w sub) as [k'|] eqn:E1; [|done]. simpl.
    intros [= <-] Hi. destruct i as [|i]; [done|]. simpl.
    apply (IH i k'); [done | lia].
Qed.

(** The index [find] returns is that of the first occurrence from the start
    on. *)
Lemma find_from_least (s sub : str) (a e j : nat) :
  find_from s sub (Z.of_nat a) = Z.of_nat e ->
  (a <= j < e)%nat -> occurs_at s sub j = false.
Proof.
  rewrite find_from_unfold.
  destruct (Z.ltb_spec (len s - Z.of_nat a) (len sub)) as [|Hge]; [lia|].
  destruct (first_index (drop a s) sub) as [k|] eqn:E; [|lia].
  intros He Hj. assert (e = a + k)%nat as -> by lia.
  unfold occurs_at. apply andb_false_iff. right.
  replace j with (a + (j - a))%nat by lia. rewrite <- drop_drop.
  apply (first_index_least _ _ k); [done | lia].
Qed.

(** X3.  When both markers are found, the value returned holds no
    occurrence of the end marker: it is cut at the first end marker that
    the search of line 19 meets. *)
Theorem extract_value_stops_at_end_marker (text start_marker end_marker : str)
    (k e : nat) :
  (0 < length end_marker)%nat ->
  find text start_marker = Z.of_nat k ->
  find_from text end_marker (Z.of_nat k) = Z.of_nat e ->
  exists v, extract_value text start_marker end_marker = Returns v /\
            absent_from v end_marker 0 = true.
Proof.
  intros Hem Hk He. rewrite (extract_value_found _ _ _ k e Hk He).
  eexists. split; [done|]. apply absent_from_spec. intros j _.
  destruct (occurs_at _ end_marker j) eqn:Hocc; [exfalso|done].
  destruct (find_from_found _ _ _ _ He ltac:(lia)) as (e' & He' & Hke & Hoe).
  assert (e' = e) as -> by lia. apply occurs_at_bound in Hoe as Hbe.
  unfold len in Hocc. rewrite <- Nat2Z.inj_add in Hocc.
  set (a := (k + length start_marker)%nat) in *.
  destruct (decide (a <= e)%nat) as [Hae|Hea].
  - rewrite slice_inside in Hocc by lia.
    apply occurs_at_bound in Hocc as Hb. rewrite length_take, length_drop in Hb.
    apply occurs_at_spec in Hocc as (pre & post & Hv & Hpre).
    assert (Hin : occurs_at text end_marker (a + j) = true).
    { apply occurs_at_spec.
      exists (take a text ++ pre), (post ++ drop (e - a) (drop a text)). split.
      - rewrite <- (take_drop a text) at 1.
        rewrite <- (take_drop (e - a) (drop a text)) at 1.
        rewrite Hv. by rewrite <- !(assoc_L (++)).
      - rewrite length_app, length_take. lia. }
    rewrite (find_from_least _ _ _ _ (a + j) He) in Hin; [done | lia].
  - assert (Hnil : slice text (Z.of_nat a) (Z.of_nat e) = []).
    { unfold slice, norm_index, len.
      replace (Z.of_nat a <? 0) with false by (symmetry; apply Z.ltb_ge; lia).
      replace (Z.of_nat e <? 0) with false by (symmetry; apply Z.ltb_ge; lia).
      replace (Z.to_nat _) with 0%nat by lia. done. }
    rewrite Hnil in Hocc. apply occurs_at_bound in Hocc. simpl in Hocc. lia.
Qed.

Lemma extract_value_stops_at_end_marker_witness :
  exists v,
    extract_value (litq "{'trackName':'a','b','artistName':'x',}")
      (litq "'trackName':'") (litq "','") = Returns v /\
    absent_from v (litq "','") 0 = true.
Proof.
  apply (extract_value_stops_at_end_marker _ _ _ 1 15); vm_compute; try reflexivity.
  lia.
Defined.

(** ** [extract_track_url] and the decoding: more on what they return *)

(** X5.  The URL returned is never protocol-relative: a decoded URL that
    starts with two slashes gets [https:] in front, and the sentinel does
    not start with a slash. *)
Theorem extract_track_url_not_protocol_relative (response_text : str) :
  exists v, extract_track_url response_text = Returns v /\
            startswith v (lit "//") = false.
Proof.
  unfold extract_track_url, try_except.
  destruct (_ =? -1); [by eexists|].
  unfold decode_url, mbind, outcome_bind.
  destruct (Json.loads_quoted _) as [u|e]; unfold obind; [|by eexists].
  destruct (startswith u (lit "//")) eqn:Hu; by eexists.
Qed.

Lemma plain_inv (c : char) :
  plain c = true ->
  (c =? dquote)%N = false /\ (c =? backslash)%N = false /\ (c <=? 31)%N = false.
Proof.
  unfold plain. rewrite !andb_true_iff, !negb_true_iff. tauto.
Qed.

Lemma scanstring_plain (x w : str) :
  forallb plain x = true ->
  Json.scanstring (x ++ dquote :: w) = Returns (x, w).
Proof.
  induction x as [|c x IH]; intros Hx.
  - reflexivity.
  - simpl in Hx. apply andb_true_iff in Hx as [Hc Hx].
    destruct (plain_inv c Hc) as (H1 & H2 & H3).
    change ((c :: x) ++ dquote :: w) with (c :: (x ++ dquote :: w)).
    cbn [Json.scanstring]. rewrite H1, H2, H3, (IH Hx). done.
Qed.

(** X7.  A raw URL made of plain characters only, with no double quote, no
    backslash and no control character, is decoded to itself: the function
    returns it unchanged, or with [https:] in front when it starts with two
    slashes. *)
Theorem decode_url_plain (raw_url : str) :
  forallb plain raw_url = true ->
  decode_url raw_url
  = Returns (if startswith raw_url (lit "//") then lit "https:" ++ raw_url else raw_url).
Proof.
  intros H. unfold decode_url, Json.loads_quoted, mbind, outcome_bind.
  rewrite (scanstring_plain raw_url [] H). cbn [forallb obind].
  by destruct (startswith raw_url (lit "//")).
Qed.

Lemma decode_url_plain_witness :
  decode_url (lit "//cdn/a.m4a?mime_type=audio_mp4&x=1")
  = Returns (lit "https:" ++ lit "//cdn/a.m4a?mime_type=audio_mp4&x=1").
Proof. apply (decode_url_plain (lit "//cdn/a.m4a?mime_type=audio_mp4&x=1")). vm_compute. reflexivity. Defined.

(** ** [extract_and_log_data]: a page without cover *)

(** X8.  A page in which the cover marker does not occur still gives a
    record with all four fields; its cover URL is the sentinel, which
    [json.loads] takes as it is. *)
Theorem extract_and_log_data_without_cover (response_text : str) :
  absent_from response_text (litq "'coverURL':'") 0 = true ->
  exists track_name artist_name track_url,
    extract_value response_text (litq "'trackName':'") (litq "','") = Returns track_name /\
    extract_value response_text (litq "'artistName':'") (litq "','") = Returns artist_name /\
    extract_track_url response_text = Returns track_url /\
    extract_and_log_data response_text
    = Returns (track_record track_name artist_name Unknown track_url).
Proof.
  intros Habs.
  destruct (extract_value_returns response_text (litq "'trackName':'") (litq "','"))
    as [track_name Hn].
  destruct (extract_value_returns response_text (litq "'artistName':'") (litq "','"))
    as [artist_name Ha].
  destruct (extract_track_url_returns response_text) as [track_url Hu].
  exists track_name, artist_name, track_url. repeat (split; [done|]).
  unfold extract_and_log_data, mbind, outcome_bind.
  rewrite Hn, Ha, Hu.
  rewrite (extract_value_no_start _ _ _ (find_none _ _ Habs)).
  unfold obind at 1 2 3.
  replace (Json.loads_quoted Unknown) with (Returns Unknown) by (vm_compute; reflexivity).
  done.
Qed.

Lemma extract_and_log_data_without_cover_witness :
  exists track_name artist_name track_url,
    extract_value (litq "{'trackName':'Song','artistName':'Artist','n':1}")
      (litq "'trackName':'") (litq "','") = Returns track_name /\
    extract_value (litq "{'trackName':'Song','artistName':'Artist','n':1}")
      (litq "'artistName':'") (litq "','") = Returns artist_name /\
    extract_track_url (litq "{'trackName':'Song','artistName':'Artist','n':1}")
      = Returns track_url /\
    extract_and_log_data (litq "{'trackName':'Song','artistName':'Artist','n':1}")
    = Returns (track_record track_name artist_name Unknown track_url).
Proof.
  apply extract_and_log_data_without_cover. vm_compute. reflexivity.
Defined.

(** ** [extract_track_url]: the field around the anchor *)

Section Field.

Implicit Types (s w x y sub : list char) (c : char) (j : nat).

Lemma startswith_singleton s c j :
  startswith (drop j s) [c] = true <-> s !! j = Some c.
Proof.
  replace (s !! j) with (drop j s !! 0%nat)
    by (rewrite lookup_drop; f_equal; lia).
  destruct (drop j s) as [|d t]; simpl; [done|].
  rewrite andb_true_r, N.eqb_eq. split; [by intros -> | by intros [= ->]].
Qed.

Lemma mem_false_lookup s c j : mem c s = false -> s !! j = Some c -> False.
Proof.
  intros Hm Hl. apply list_elem_of_lookup_2, list_elem_of_In in Hl.
  assert (mem c s = true); [|congruence].
  apply existsb_exists. exists c. split; [done | apply N.eqb_refl].
Qed.

Lemma mem_app_false x y c : mem c x = false -> mem c y = false -> mem c (x ++ y) = false.
Proof.
  unfold mem. intros Hx Hy. rewrite existsb_app.
  apply orb_false_iff. split; [exact Hx | exact Hy].
Qed.

Lemma last_index_none w sub :
  (forall j, (j <= length w)%nat -> startswith (drop j w) sub = false) ->
  last_index w sub = None.
Proof.
  induction w as [|c w IH]; intros H;
    pose proof (H 0%nat ltac:(lia)) as H0; simpl in *; rewrite H0; [done|].
  rewrite IH; [done|]. intros j Hj. apply (H (S j)). lia.
Qed.

Lemma startswith_app_inv x y sub :
  startswith (x ++ y) sub = true -> (length sub <= length x)%nat ->
  startswith x sub = true.
Proof.
  revert x. induction sub as [|a sub IH]; intros x H Hl; [done|].
  destruct x as [|b x]; simpl in *; [lia|].
  apply andb_true_iff in H as [-> H]. simpl. apply IH; [done | lia].
Qed.

End Field.

(** X4.  The field around the anchor.  For a text in which a colon is
    followed by a span and a comma, where the anchor does not occur before
    the colon, first occurs in the span after a part [a] without colon, and
    is followed there by a part [b] without comma, the two scans of lines 36
    and 37 cut out exactly the span, and the function returns what trimming
    and decoding make of it.  The colon of a scheme counts: for a value
    [http://...] the span starts after [http:], and the result starts with
    [https:]. *)
Theorem extract_track_url_field (pre a b post : list char) :
  let span := a ++ anchor ++ b in
  let text := pre ++ colon :: span ++ comma :: post in
  absent_from pre anchor 0 = true ->
  first_at span anchor (length a) = true ->
  mem colon a = false ->
  mem comma b = false ->
  url_span text (find text anchor) = span /\
  extract_track_url text
  = try_except (decode_url (trim_span span)) (fun _ => Returns Unknown).
Proof.
  intros span text Hpre Hspan Ha Hb.
  set (m := (length pre + 1 + length a)%nat).
  set (k := (m + 19 + length b)%nat).
  assert (Hsplit : text = (pre ++ colon :: a) ++ (anchor ++ b) ++ comma :: post).
  { unfold text, span. by rewrite <- !(assoc_L (++)). }
  assert (Hlen1 : length (pre ++ colon :: a) = m).
  { rewrite length_app. simpl. lia. }
  assert (Hlenab : length (anchor ++ b) = (19 + length b)%nat).
  { by rewrite length_app. }
  assert (Hlen : length text = (k + 1 + length post)%nat).
  { rewrite Hsplit, length_app, Hlen1, length_app, Hlenab. simpl. lia. }
  apply andb_true_iff in Hspan as [_ Hbefore].
  assert (Hfind : find text anchor = Z.of_nat m).
  { apply find_first, andb_true_iff. split.
    - apply occurs_at_spec. exists (pre ++ colon :: a), (b ++ comma :: post).
      split; [|done]. rewrite Hsplit. by rewrite <- !(assoc_L (++)).
    - apply absent_between_spec. intros i [_ Hi].
      unfold occurs_at. apply andb_false_iff. right.
      destruct (decide (i <= length pre)%nat) as [Hle|Hgt].
      + unfold text. apply absent_no_straddle; [done | by vm_compute | done].
      + destruct (startswith (drop i text) anchor) eqn:Hs; [exfalso|done].
        set (j := (i - (length pre + 1))%nat).
        assert (Hdrop : drop i text = drop j span ++ comma :: post).
        { unfold text.
          change (pre ++ colon :: span ++ comma :: post)
            with (pre ++ [colon] ++ span ++ comma :: post).
          rewrite (assoc_L (++) pre).
          replace i with (length (pre ++ [colon]) + j)%nat
            by (rewrite length_app; simpl; lia).
          rewrite drop_app_add. apply drop_app_le.
          unfold span. rewrite length_app. lia. }
        rewrite Hdrop in Hs. apply startswith_app_inv in Hs.
        * assert (Hocc : occurs_at span anchor j = true).
          { unfold occurs_at. rewrite Hs, andb_true_r. apply Nat.leb_le.
            unfold span. rewrite !length_app. change (length anchor) with 19%nat. lia. }
          rewrite (proj1 (absent_between_spec _ _ _ _) Hbefore j) in Hocc; [done | lia].
        * rewrite length_drop. unfold span. rewrite !length_app.
          change (length anchor) with 19%nat. lia. }
  assert (Hcolon : rfind_in text (lit ":") 0 (Z.of_nat m) = Z.of_nat (length pre)).
  { rewrite rfind_in_unfold by lia.
    destruct (Z.ltb_spec (Z.of_nat m) (len (lit ":"))) as [Hlt|_].
    { change (len (lit ":")) with 1 in Hlt. lia. }
    rewrite Hsplit, <- Hlen1, take_app_length.
    rewrite (last_index_app _ _ _ 0); [f_equal; lia|].
    change (last_index (colon :: a) (lit ":"))
      with (match last_index a [colon] with
            | Some n => Some (S n)
            | None => if startswith (colon :: a) [colon] then Some 0%nat else None
            end).
    rewrite last_index_none; [done|].
    intros j _. destruct (startswith (drop j a) [colon]) eqn:Hs; [exfalso|done].
    apply startswith_singleton in Hs. by apply (mem_false_lookup _ _ _ Ha Hs). }
  assert (Hcomma : find_from text (lit ",") (Z.of_nat m) = Z.of_nat k).
  { apply find_from_first; [lia | |].
    - apply occurs_at_spec. exists ((pre ++ colon :: a) ++ anchor ++ b), post.
      split; [by rewrite Hsplit, <- !(assoc_L (++))|].
      rewrite length_app, Hlen1, Hlenab. lia.
    - apply absent_between_spec. intros i Hi.
      unfold occurs_at. apply andb_false_iff. right.
      destruct (startswith (drop i text) (lit ",")) eqn:Hs; [exfalso|done].
      apply (startswith_singleton text comma i) in Hs.
      rewrite Hsplit in Hs. rewrite lookup_app_r in Hs by lia.
      rewrite lookup_app_l in Hs by lia.
      assert (Hanchor : mem comma anchor = false) by (vm_compute; reflexivity).
      apply (mem_false_lookup _ _ _ (mem_app_false _ _ _ Hanchor Hb) Hs). }
  assert (Hurl : url_span text (Z.of_nat m) = span).
  { unfold url_span. rewrite Hcolon, Hcomma.
    replace (Z.of_nat (length pre) + 1) with (Z.of_nat (length pre + 1)) by lia.
    rewrite slice_inside by lia.
    unfold text.
    change (pre ++ colon :: span ++ comma :: post)
      with (pre ++ [colon] ++ span ++ comma :: post).
    rewrite (assoc_L (++) pre).
    replace (length pre + 1)%nat with (length (pre ++ [colon]))
      by (rewrite length_app; simpl; lia).
    rewrite drop_app_length. apply take_app_length'.
    unfold span. rewrite !length_app. change (length anchor) with 19%nat.
    simpl. lia. }
  rewrite Hfind. split; [done|].
  unfold extract_track_url. rewrite Hfind.
  destruct (Z.eqb_spec (Z.of_nat m) (-1)); [lia|]. by rewrite Hurl.
Qed.

Lemma extract_track_url_field_witness :
  extract_track_url
    (litq "{'url':'http" ++ colon :: (lit "//cdn/a.m4a?" ++ anchor ++ litq "&br=64'")
       ++ comma :: litq "'n':1}")
  = Returns (lit "https://cdn/a.m4a?mime_type=audio_mp4&br=64").
Proof.
  rewrite (proj2 (extract_track_url_field (litq "{'url':'http") (lit "//cdn/a.m4a?")
                    (litq "&br=64'") (litq "'n':1}")
                    eq_refl eq_refl eq_refl eq_refl)).
  vm_compute. reflexivity.
Defined.

(** ** The anchor in the result of [extract_track_url] *)

Section KeepsRun.

Implicit Types (w x y A B T : list char) (c a : char).

Lemma hex4_inv h1 h2 h3 h4 u :
  Json.hex4 h1 h2 h3 h4 = Some u ->
  escape_part h1 = true /\ escape_part h2 = true /\
  escape_part h3 = true /\ escape_part h4 = true.
Proof.
  unfold Json.hex4, escape_part.
  destruct (Json.hexval h1), (Json.hexval h2), (Json.hexval h3), (Json.hexval h4);
    try done.
  intros _. by rewrite !orb_true_r.
Qed.

(** One step of the scanner on a character that is not the closing quote:
    it takes the character and, for an escape, the characters of the escape,
    gives one character, and goes on with the rest. *)
Lemma scanstring_step a w d rest :
  (a =? dquote)%N = false ->
  Json.scanstring (a :: w) = Returns (d, rest) ->
  exists consumed w' c' d',
    w = consumed ++ w' /\ forallb escape_part consumed = true /\
    Json.scanstring w' = Returns (d', rest) /\ d = c' :: d'.
Proof.
  intros Ha Hs. cbn [Json.scanstring] in Hs. rewrite Ha in Hs.
  destruct (a =? backslash)%N.
  - destruct w as [|e w2]; [done|].
    destruct (e =? 117)%N eqn:Eu.
    + destruct w2 as [|h1 [|h2 [|h3 [|h4 w3]]]]; try done.
      destruct (Json.hex4 h1 h2 h3 h4) as [uni|] eqn:Eh; [|done].
      destruct (hex4_inv _ _ _ _ _ Eh) as (H1 & H2 & H3 & H4).
      assert (He : escape_part e = true).
      { unfold escape_part. by rewrite Eu, orb_true_r. }
      assert (Hshort : forall c0, Json.push c0 (Json.scanstring w3) = Returns (d, rest) ->
                exists consumed w' c' d',
                  e :: h1 :: h2 :: h3 :: h4 :: w3 = consumed ++ w' /\
                  forallb escape_part consumed = true /\
                  Json.scanstring w' = Returns (d', rest) /\ d = c' :: d').
      { intros c0 (d' & Hd' & ->)%push_inv.
        exists [e; h1; h2; h3; h4], w3, c0, d'. repeat split; try done.
        simpl. by rewrite He, H1, H2, H3, H4. }
      destruct (Json.is_high_surrogate uni); [|by eapply Hshort].
      destruct w3 as [|b [|u [|l1 [|l2 [|l3 [|l4 w4]]]]]]; try by eapply Hshort.
      destruct ((b =? backslash) && (u =? 117))%N eqn:Ebu; [|by eapply Hshort].
      destruct (Json.hex4 l1 l2 l3 l4) as [uni2|] eqn:El; [|done].
      destruct (Json.is_low_surrogate uni2); [|by eapply Hshort].
      apply andb_true_iff in Ebu as [Eb' Eu'].
      destruct (hex4_inv _ _ _ _ _ El) as (L1 & L2 & L3 & L4).
      apply push_inv in Hs as (d' & Hd' & ->).
      exists [e; h1; h2; h3; h4; b; u; l1; l2; l3; l4], w4,
        (Json.join_surrogates uni uni2), d'.
      repeat split; try done.
      simpl. rewrite He, H1, H2, H3, H4, L1, L2, L3, L4. simpl.
      unfold escape_part. by rewrite Eb', Eu', !orb_true_r.
    + destruct (Json.simple_escape e) as [c'|] eqn:Ee; [|done].
      apply push_inv in Hs as (d' & Hd' & ->).
      exists [e], w2, c', d'. repeat split; try done.
      simpl. unfold escape_part. by rewrite Ee, !orb_true_r.
  - destruct (a <=? 31)%N; [done|].
    apply push_inv in Hs as (d' & Hd' & ->).
    by exists [], w, a, d'.
Qed.

Lemma scanstring_plain_prefix x B d rest :
  forallb plain x = true ->
  Json.scanstring (x ++ B) = Returns (d, rest) ->
  exists d2, d = x ++ d2.
Proof.
  revert d. induction x as [|c x IH]; intros d Hx Hs; [by exists d|].
  simpl in Hx. apply andb_true_iff in Hx as [Hc Hx].
  destruct (plain_inv c Hc) as (H1 & H2 & H3).
  change ((c :: x) ++ B) with (c :: (x ++ B)) in Hs.
  cbn [Json.scanstring] in Hs. rewrite H1, H2, H3 in Hs.
  apply push_inv in Hs as (d' & Hd' & ->).
  destruct (IH d' Hx Hd') as [d2 ->]. by exists d2.
Qed.

(** Characters that all satisfy [P], followed by [w'], against [A] followed
    by a character that does not: the first list ends inside [A]. *)
Lemma prefix_before_marker (P : char -> bool) x w' A c T :
  x ++ w' = A ++ c :: T -> forallb P x = true -> P c = false ->
  exists A', A = x ++ A' /\ w' = A' ++ c :: T.
Proof.
  revert A. induction x as [|b x IH]; intros A Heq Hx Hc; [by exists A|].
  simpl in Hx. apply andb_true_iff in Hx as [Hb Hx].
  destruct A as [|a A]; simpl in Heq.
  - injection Heq as -> _. congruence.
  - injection Heq as -> Heq. destruct (IH A Heq Hx Hc) as (A' & -> & ->).
    by exists A'.
Qed.

Variables (m : char) (run_tail : list char).
Hypothesis m_plain : plain m = true.
Hypothesis m_no_escape : escape_part m = false.
Hypothesis m_no_space : Json.json_ws m = false.
Hypothesis tail_plain : forallb plain run_tail = true.

(** The scanner keeps a run of plain characters that does not begin with a
    character of an escape, unless it stops at a quote before the run. *)
Lemma scanstring_keeps_run (n : nat) :
  forall A B d rest,
    (length A <= n)%nat ->
    Json.scanstring (A ++ (m :: run_tail) ++ B) = Returns (d, rest) ->
    (exists d1 d2, d = d1 ++ (m :: run_tail) ++ d2) \/
    (exists A2, rest = A2 ++ (m :: run_tail) ++ B).
Proof.
  induction n as [|n IH]; intros A B d rest Hlen Hs.
  { destruct A; [|simpl in Hlen; lia]. left. exists [].
    apply (scanstring_plain_prefix (m :: run_tail) B d rest); [|done].
    simpl. by rewrite m_plain, tail_plain. }
  destruct A as [|a A].
  { left. exists [].
    apply (scanstring_plain_prefix (m :: run_tail) B d rest); [|done].
    simpl. by rewrite m_plain, tail_plain. }
  simpl in Hlen. change ((a :: A) ++ (m :: run_tail) ++ B)
    with (a :: (A ++ m :: (run_tail ++ B))) in Hs.
  destruct (a =? dquote)%N eqn:Ea.
  { cbn [Json.scanstring] in Hs. rewrite Ea in Hs. injection Hs as <- <-.
    right. by exists A. }
  destruct (scanstring_step _ _ _ _ Ea Hs) as (consumed & w' & c' & d' & Hw & Hc & Hs' & ->).
  symmetry in Hw.
  destruct (prefix_before_marker escape_part _ _ _ _ _ Hw Hc m_no_escape)
    as (A' & -> & ->).
  rewrite length_app in Hlen.
  destruct (IH A' B d' rest ltac:(lia) Hs') as [(d1 & d2 & ->)|[A2 ->]].
  - left. by exists (c' :: d1), d2.
  - right. by exists A2.
Qed.

Lemma loads_quoted_keeps_run A B d :
  Json.loads_quoted (A ++ (m :: run_tail) ++ B) = Returns d ->
  exists d1 d2, d = d1 ++ (m :: run_tail) ++ d2.
Proof.
  unfold Json.loads_quoted.
  destruct (Json.scanstring _) as [[d' rest]|e] eqn:Es; [|done].
  destruct (forallb Json.json_ws rest) eqn:Ews; [|done].
  intros [= <-]. rewrite <- !(assoc_L (++)) in Es.
  destruct (scanstring_keeps_run _ A (B ++ [dquote]) d' rest (Nat.le_refl _) Es)
    as [?|[A2 ->]]; [done|].
  rewrite forallb_app in Ews. apply andb_true_iff in Ews as [_ Ews].
  simpl in Ews. apply andb_true_iff in Ews as [Hm _]. congruence.
Qed.

End KeepsRun.

Lemma lstrip_with_keeps_head (p : char -> bool) (A : list char) c T :
  p c = false -> exists A', lstrip_with p (A ++ c :: T) = A' ++ c :: T.
Proof.
  intros Hc. induction A as [|a A [A' IH]]; simpl.
  - rewrite Hc. by exists [].
  - destruct (p a); [by exists A' | by exists (a :: A)].
Qed.

Lemma strip_with_keeps_run (p : char -> bool) (A R B : list char) h z :
  head R = Some h -> last R = Some z -> p h = false -> p z = false ->
  exists A' B', strip_with p (A ++ R ++ B) = A' ++ R ++ B'.
Proof.
  intros [R0 HR0]%head_Some [R1 HR1]%last_Some Hh Hz. unfold strip_with, rstrip_with.
  destruct (lstrip_with_keeps_head p A h (R0 ++ B) Hh) as [A' HA].
  rewrite HR0. change ((h :: R0) ++ B) with (h :: (R0 ++ B)). rewrite HA.
  change (h :: (R0 ++ B)) with ((h :: R0) ++ B). rewrite <- HR0, HR1.
  rewrite !reverse_app. change (reverse [z]) with [z].
  rewrite <- !(assoc_L (++)).
  destruct (lstrip_with_keeps_head p (reverse B) z (reverse R1 ++ reverse A') Hz)
    as [B'' HB].
  change ([z] ++ reverse R1 ++ reverse A') with (z :: (reverse R1 ++ reverse A')).
  rewrite HB. exists A', (reverse B'').
  rewrite reverse_app, reverse_cons, reverse_app, !reverse_involutive.
  by rewrite <- !(assoc_L (++)).
Qed.

Lemma trim_span_keeps_stem (A B : list char) :
  exists A' B', trim_span (A ++ anchor_stem ++ B) = A' ++ anchor_stem ++ B'.
Proof.
  unfold trim_span, strip_chars, strip.
  destruct (strip_with_keeps_run isspace A anchor_stem B 109%N 112%N)
    as (A1 & B1 & ->); try reflexivity.
  apply (strip_with_keeps_run _ A1 anchor_stem B1 109%N 112%N); reflexivity.
Qed.

(** The span of line 39 is a window of the text that begins at or before
    the anchor and ends after all but, at most, its last character. *)
Lemma url_span_window (text : list char) (m : nat) :
  occurs_at text anchor m = true ->
  exists a hi, (a <= m)%nat /\ (m + 18 <= hi <= length text)%nat /\
               url_span text (Z.of_nat m) = take (hi - a) (drop a text).
Proof.
  intros Hocc.
  pose proof (occurs_at_bound _ _ _ Hocc) as Hm.
  change (length anchor) with 19%nat in Hm.
  unfold url_span.
  set (start_index := rfind_in text (lit ":") 0 (Z.of_nat m) + 1).
  assert (Hstart : 0 <= start_index <= Z.of_nat m).
  { unfold start_index.
    destruct (rfind_in_bound text (lit ":") m ltac:(lia)) as [->|[H1 H2]].
    - lia.
    - change (len (lit ":")) with 1 in H2. lia. }
  replace start_index with (Z.of_nat (Z.to_nat start_index)) by lia.
  set (a := Z.to_nat start_index). assert (Ha : (a <= m)%nat) by lia.
  exists a.
  destruct (Z.eq_dec (find_from text (lit ",") (Z.of_nat m)) (-1)) as [->|Hfound].
  - exists (length text - 1)%nat. split; [done|]. split; [lia|].
    by rewrite slice_minus_one by lia.
  - destruct (find_from_found _ _ _ _ eq_refl Hfound) as (k & -> & Hk & Hcomma).
    pose proof (occurs_at_bound _ _ _ Hcomma) as Hkb.
    exists k. split; [done|]. split; [|by rewrite slice_inside by lia].
    split; [|lia].
    destruct (decide (m + 18 <= k)%nat) as [|Hlt]; [done|]. exfalso.
    pose proof (occurs_at_lookup _ _ k 0 Hcomma ltac:(vm_compute; lia)) as Hc.
    rewrite Nat.add_0_r in Hc.
    replace k with (m + (k - m))%nat in Hc by lia.
    rewrite (occurs_at_lookup _ _ m (k - m) Hocc) in Hc
      by (change (length anchor) with 19%nat; lia).
    assert (Hmem : mem comma anchor = false) by (vm_compute; reflexivity).
    apply (mem_false_lookup anchor comma (k - m) Hmem). by rewrite Hc.
Qed.

Lemma url_span_holds_stem (text : list char) (m : nat) :
  occurs_at text anchor m = true ->
  exists A B, url_span text (Z.of_nat m) = A ++ anchor_stem ++ B.
Proof.
  intros Hocc. destruct (url_span_window text m Hocc) as (a & hi & Ha & Hhi & ->).
  apply occurs_at_spec in Hocc as (pre & post & -> & Hpre).
  change anchor with (anchor_stem ++ [52%N]) in *.
  rewrite !length_app in Hhi. change (length anchor_stem) with 18%nat in Hhi.
  rewrite <- (assoc_L (++) anchor_stem).
  exists (drop a pre), (take (hi - a - (length pre - a) - 18) ([52%N] ++ post)).
  rewrite drop_app_le by lia.
  rewrite take_app_ge by (rewrite length_drop; lia).
  rewrite length_drop. f_equal.
  rewrite take_app_ge by (change (length anchor_stem) with 18%nat; lia).
  done.
Qed.

(** X6.  Both scans start at the anchor, so whatever the text is, the URL
    that comes out holds the anchor, or at least all of it but its last
    character (when the text ends with the anchor and has no comma after
    it): the result is the sentinel or has [mime_type=audio_mp] in it.  No
    URL without this token is ever returned. *)
Theorem extract_track_url_keeps_anchor (response_text : str) :
  exists v, extract_track_url response_text = Returns v /\
            (v = Unknown \/ exists p q, v = p ++ anchor_stem ++ q).
Proof.
  unfold extract_track_url, try_except.
  destruct (Z.eqb_spec (find response_text anchor) (-1)) as [|Hfound]; [by eauto|].
  destruct (find_from_found response_text anchor 0 _ eq_refl Hfound)
    as (m & Hm & _ & Hocc).
  change (find response_text anchor = Z.of_nat m) in Hm. rewrite Hm.
  destruct (url_span_holds_stem _ _ Hocc) as (A & B & ->).
  destruct (trim_span_keeps_stem A B) as (A' & B' & ->).
  unfold decode_url, mbind, outcome_bind.
  destruct (Json.loads_quoted _) as [u|e] eqn:Ed; unfold obind; [|by eauto].
  apply (loads_quoted_keeps_run 109%N (lit "ime_type=audio_mp")) in Ed
    as (d1 & d2 & ->); try reflexivity.
  destruct (startswith _ (lit "//")); eexists; (split; [done|]); right.
  - exists (lit "https:" ++ d1), d2. by rewrite <- !(assoc_L (++)).
  - by exists d1, d2.
Qed.

(** ** The files the route leaves *)

Lemma download_frame (E : env) (track_data : gmap string str) (fs : files) (name : string) :
  name <> temp_name E ->
  (download_and_set_metadata E track_data fs).2 !! name = fs !! name.
Proof.
  intros Hname. run_download.
  repeat (case_match; simplify_eq); cbn;
    rewrite ?lookup_delete_ne, ?lookup_insert_ne by done; done.
Qed.

Lemma fetch_frame (E : env) (text_of : response -> str) (url : str) (fs : files)
    (name : string) :
  name <> temp_name E ->
  (fetch_and_process E text_of url fs).2 !! name = fs !! name.
Proof.
  intros Hname. unfold fetch_and_process, try_io, session_get, lift.
  rewrite io_bind_run.
  destruct (network E url) as [r|e]; [|done].
  destruct (status_code r =? 200); [|done].
  destruct (extract_and_log_data_run (text_of r)) as [d Hd].
  rewrite io_bind_run, Hd, io_bind_run.
  pose proof (download_frame E d fs name Hname) as Hf.
  destruct (download_result_pair E d fs) as (res & fs' & Hrun & [->|(b & c & n & ->)]);
    rewrite Hrun in Hf |- *; exact Hf.
Qed.

(** X22.  Whatever the query and whatever the world answers, a request to
    the route leaves every file other than the temporary file as it
    was. *)
Theorem download_track_touches_only_temp_file (E : env) (text_of : response -> str)
    (url : option str) (fs : files) (name : string) :
  name <> temp_name E ->
  (download_track E text_of url fs).2 !! name = fs !! name.
Proof.
  intros Hname. unfold download_track.
  destruct url as [[|c u]|]; [done| |done].
  rewrite io_bind_run.
  pose proof (fetch_frame E text_of (c :: u) fs name Hname) as Hf.
  destruct (fetch_and_process E text_of (c :: u) fs) as [[[[b|] [[|c' n]|]]|e] fs'];
    try exact Hf.
  unfold send_file. by destruct (has_newline (c' :: n)).
Qed.

Lemma download_track_touches_only_temp_file_witness :
  (download_track (site 200) page_text (Some (lit "https://music/track"))
     {["/srv/app.py" := cover_jpeg]}).2 !! "/srv/app.py" = Some cover_jpeg.
Proof.
  rewrite (download_track_touches_only_temp_file (site 200) page_text _ _ "/srv/app.py").
  - apply lookup_singleton_eq.
  - vm_compute. discriminate.
Defined.

(** ** Reading the tagged file back *)





